(** * TWISTER environment adapters and collate utility: a shallow embedding

    Sources embedded here:
    - nnet/envs/dm_control/deep_mind_control_env.py  (DeepMindControlEnv)
    - nnet/envs/atari/atari_env.py                  (AtariEnv)
    - nnet/utils/collate_fn.py                      (CollateFn.collate)

    Conventions.
    - Python exceptions are the constructors of [pyerror]; a fallible
      computation returns [res A].
    - Scalar floats (rewards, scores, action values) are rationals [Q]; the
      running sums are written in the same left-to-right order as the code.
      The float32 cast of [torch.tensor(x, dtype=torch.float32)] is not
      modelled (it is the identity here).
    - A uint8 image is a nested list [arr3] (three dimensions, either
      (C, H, W) or (H, W, C) as the code has it).
    - The boolean fields of a Transition are float tensors 0.0 / 1.0 in the
      code; they are [bool] here.
    - The simulators (dm_control, gym's AtariPreprocessing) are external:
      they are Section variables, functions of an opaque simulator state. *)

From Stdlib Require Import String.
From Stdlib Require Import List QArith Qminmax ZArith Bool Lia.
Import ListNotations.

Set Warnings "-register-all".

(** ** Python errors and the error monad *)

Inductive pyerror :=
| AssertionError
| AttributeError
| RuntimeError
| KeyError
| IndexError
| NameError.

Inductive res (A : Type) : Type :=
| Ok : A -> res A
| Err : pyerror -> res A.
Arguments Ok {A} _.
Arguments Err {A} _.

Definition bind {A B : Type} (m : res A) (k : A -> res B) : res B :=
  match m with
  | Ok a => k a
  | Err e => Err e
  end.

Notation "x <- m ;; k" := (bind m (fun x => k))
  (at level 61, m at next level, right associativity).
Notation "' p <- m ;; k" := (bind m (fun x => match x with p => k end))
  (at level 61, p pattern, m at next level, right associativity).

(** ** Tensors (actions and collated samples) *)

(** A torch tensor: a scalar or an array of sub-tensors along its first
    axis. Tensors built by torch are regular (all sub-tensors share one
    shape); [shape] reads the shape off the first sub-tensor. *)
Inductive tensor :=
| TScalar (q : Q)
| TArr (l : list tensor).

Fixpoint shape (t : tensor) : list nat :=
  match t with
  | TScalar _ => []
  | TArr l => length l :: match l with [] => [] | x :: _ => shape x end
  end.

(** All elements in row-major order ([tolist] of a 1-D tensor, and what
    [item()] reads). *)
Fixpoint flatten (t : tensor) : list Q :=
  match t with
  | TScalar q => [q]
  | TArr l =>
      (fix go (l : list tensor) : list Q :=
         match l with
         | [] => []
         | x :: r => flatten x ++ go r
         end) l
  end.

(** [Tensor.item()]: only a one-element tensor converts to a scalar;
    otherwise torch raises a RuntimeError. *)
Definition item (t : tensor) : res Q :=
  match flatten t with
  | [q] => Ok q
  | _ => Err RuntimeError
  end.

(** [Tensor.clip(low, high)] = min(max(x, low), high), element-wise. *)
Definition clip_q (low high x : Q) : Q := Qmin (Qmax x low) high.

Fixpoint tclip (low high : Q) (t : tensor) : tensor :=
  match t with
  | TScalar q => TScalar (clip_q low high q)
  | TArr l => TArr (map (tclip low high) l)
  end.

(** [torch.stack(xs, axis=0)]: fails on an empty list or on tensors of
    different shapes. *)
Definition stack (xs : list tensor) : res tensor :=
  match xs with
  | [] => Err RuntimeError
  | x :: _ =>
      if forallb (fun y => if list_eq_dec Nat.eq_dec (shape y) (shape x)
                           then true else false) xs
      then Ok (TArr xs) else Err RuntimeError
  end.

(** ** Images *)

Definition arr3 := list (list (list Z)).

(** Size of the last axis of an (H, W, C) image. *)
Definition last_dim (x : arr3) : nat :=
  match x with
  | (p :: _) :: _ => length p
  | _ => 0
  end.

(** [x.permute(2, 0, 1)]: (H, W, C) to (C, H, W). *)
Definition chw_of_hwc (x : arr3) : arr3 :=
  map (fun c => map (fun row => map (fun px => nth c px 0%Z) row) x)
      (seq 0 (last_dim x)).

(** [x.permute(1, 2, 0)]: (C, H, W) to (H, W, C). *)
Definition hwc_of_chw (x : arr3) : arr3 :=
  match x with
  | [] => []
  | p :: _ =>
      map (fun i =>
             map (fun j => map (fun q => nth j (nth i q []) 0%Z) x)
                 (seq 0 (length (nth i p []))))
          (seq 0 (length p))
  end.

(** [x.repeat(h, 1, 1)] on a (C, H, W) image: h copies along channels. *)
Fixpoint repeat_ch (h : nat) (x : arr3) : arr3 :=
  match h with
  | O => []
  | S h' => x ++ repeat_ch h' x
  end.

(** Channels [k*c .. k*c + c - 1] of a history buffer: its k-th frame. *)
Definition frame_slice (c k : nat) (hist : arr3) : arr3 :=
  firstn c (skipn (k * c) hist).

(** The last [n] channels of a buffer, [hist[-n:]]. *)
Definition lastn {A : Type} (n : nat) (l : list A) : list A :=
  skipn (length l - n) l.

(** ** Transitions, recording buffers, video files *)

(** The AttrDict returned by [reset] and [step]. *)
Record transition := {
  state : arr3;
  reward : Q;
  done : bool;
  is_first : bool;
  is_last : bool }.

(** [self.episode_video]: a Python list while frames are appended, replaced
    by the stacked tensor ([torch.stack]) when the episode is saved. *)
Inductive recbuf (A : Type) :=
| BufList (l : list A)
| BufStacked (l : list A).
Arguments BufList {A} _.
Arguments BufStacked {A} _.

(** [list.append]; a tensor has no [append] attribute. *)
Definition buf_append {A : Type} (b : recbuf A) (x : A) : res (recbuf A) :=
  match b with
  | BufList l => Ok (BufList (l ++ [x]))
  | BufStacked _ => Err AttributeError
  end.

Definition buf_frames {A : Type} (b : recbuf A) : list A :=
  match b with BufList l | BufStacked l => l end.

(** [torch.stack(buffer, dim=0)]; raises on an empty list. *)
Definition buf_stack {A : Type} (b : recbuf A) : res (list A) :=
  match buf_frames b with
  | [] => Err RuntimeError
  | l => Ok l
  end.

(** One [torchvision.io.write_video] call. The file is
    [<path>/<stamp>_<score>.mp4], or [..._pre.mp4] when [vf_pre];
    [vf_stamp] is [str(datetime.now()).replace(" ", "_")]. *)
Record video_file := {
  vf_path : string;
  vf_stamp : string;
  vf_score : Q;
  vf_pre : bool;
  vf_fps : Q;
  vf_frames : list arr3 }.

Definition write_video (path stamp : string) (score : Q) (pre : bool)
    (fps : Q) (frames : list arr3) : video_file :=
  {| vf_path := path; vf_stamp := stamp; vf_score := score; vf_pre := pre;
     vf_fps := fps; vf_frames := frames |}.

(** ** DeepMindControlEnv (nnet/envs/dm_control/deep_mind_control_env.py) *)

Section DeepMindControl.

(** The wrapped [pixels.Wrapper(suite.load(domain, task))]: its state, the
    pixel observation (H, W, C) of [env.reset()], and for [env.step(a)] the
    pixel observation, [infos.reward] and [infos.last()] (what
    [process_infos] extracts); [render cam s] is
    [env._env.physics.render(camera_id=cam)]. *)
Variable Sim : Type.
Variable sim_reset : Sim -> Sim * arr3.
Variable sim_step : Sim -> list Q -> Sim * (arr3 * Q * bool).
Variable sim_render : nat -> Sim -> arr3.

(** Constructor arguments of [DeepMindControlEnv]; [dc_num_actions] is the
    action dimension the concrete tasks set. *)
Record dmc_cfg := {
  dc_img_size : nat * nat;
  dc_history_frames : nat;
  dc_episode_saving_path : option string;
  dc_camera_id : nat;
  dc_action_repeat : nat;
  dc_num_actions : nat }.

Definition dmc_clip_low : Q := -1.
Definition dmc_clip_high : Q := 1.
Definition dmc_fps : Q := 50.

(** The mutable attributes of the adapter. The recording buffers only
    matter when [episode_saving_path] is set. *)
Record dmc := {
  d_env : Sim;
  d_history : arr3;
  d_num_channels : nat;
  d_episode_score : Q;
  d_episode_video : recbuf arr3;
  d_episode_video_pre : recbuf arr3 }.

(** [obs_space()]: a single ("image", shape, dtype) entry. *)
Definition dmc_obs_space (cfg : dmc_cfg) : list (string * list nat * string) :=
  [("image", [3%nat; fst (dc_img_size cfg); snd (dc_img_size cfg)], "uint8")%string].

(** [sample()] with [u] the uniform draws, one per action dimension. *)
Definition dmc_sample (cfg : dmc_cfg) (u : list Q) : tensor :=
  TArr (map TScalar (firstn (dc_num_actions cfg) u)).

(** [reset()]. *)
Definition dmc_reset (cfg : dmc_cfg) (st : dmc) : dmc * transition :=
  let '(env', px) := sim_reset (d_env st) in
  let obs_pixels := chw_of_hwc px in
  let '(vid, pre) :=
    match dc_episode_saving_path cfg with
    | Some _ => (BufList [], BufList [])
    | None => (d_episode_video st, d_episode_video_pre st)
    end in
  let history := repeat_ch (dc_history_frames cfg) obs_pixels in
  ({| d_env := env'; d_history := history; d_num_channels := length obs_pixels;
      d_episode_score := 0; d_episode_video := vid; d_episode_video_pre := pre |},
   {| state := history; reward := 0; done := false; is_first := true;
      is_last := false |}).

(** The [for i in range(self.action_repeat)] loop of [step], carrying the
    simulator, both video buffers, the running [reward], the running [done]
    and the last [obs_pixels] ([None] before the first iteration). *)
Fixpoint dmc_repeat (cfg : dmc_cfg) (n : nat) (a : list Q) (env : Sim)
    (vid pre : recbuf arr3) (rew : Q) (dn : bool) (last : option arr3)
    : res (Sim * recbuf arr3 * recbuf arr3 * Q * bool * option arr3) :=
  match n with
  | O => Ok (env, vid, pre, rew, dn, last)
  | S n' =>
      let '(env', (px, step_reward, step_done)) := sim_step env a in
      let obs_pixels := chw_of_hwc px in
      '(vid', pre') <-
        match dc_episode_saving_path cfg with
        | Some _ =>
            v <- buf_append vid (sim_render (dc_camera_id cfg) env') ;;
            p <- buf_append pre (hwc_of_chw obs_pixels) ;;
            Ok (v, p)
        | None => Ok (vid, pre)
        end ;;
      dmc_repeat cfg n' a env' vid' pre' (rew + step_reward)
                 (dn || step_done) (Some obs_pixels)
  end.

(** [step(action)] after the assertion and the clipping, [a] being
    [action.tolist()]. [now] is the formatted [datetime.now()]. Returns the
    new attributes, the video files written, and the Transition. *)
Definition dmc_step_list (cfg : dmc_cfg) (now : string) (st : dmc) (a : list Q)
    : res (dmc * list video_file * transition) :=
  '(env', vid, pre, rew, dn, last) <-
    dmc_repeat cfg (dc_action_repeat cfg) a (d_env st) (d_episode_video st)
               (d_episode_video_pre st) 0 false None ;;
  let score := d_episode_score st + rew in
  '(vid2, pre2, files) <-
    match dn, dc_episode_saving_path cfg with
    | true, Some path =>
        v <- buf_stack vid ;;
        p <- buf_stack pre ;;
        Ok (BufStacked v, BufStacked p,
            [write_video path now score false dmc_fps v;
             write_video path now score true dmc_fps p])
    | _, _ => Ok (vid, pre, [])
    end ;;
  let done_t := false in
  let is_last_t := done_t in
  obs_pixels <- match last with Some o => Ok o | None => Err NameError end ;;
  let history := skipn 3 (d_history st) ++ obs_pixels in
  Ok ({| d_env := env'; d_history := history;
         d_num_channels := d_num_channels st; d_episode_score := score;
         d_episode_video := vid2; d_episode_video_pre := pre2 |},
      files,
      {| state := history; reward := rew; done := done_t; is_first := false;
         is_last := is_last_t |}).

(** [step(action)]: [assert action.shape == (self.num_actions,)], then
    [action.clip(self.clip_low, self.clip_high)]. *)
Definition dmc_step (cfg : dmc_cfg) (now : string) (st : dmc) (action : tensor)
    : res (dmc * list video_file * transition) :=
  if list_eq_dec Nat.eq_dec (shape action) [dc_num_actions cfg]
  then dmc_step_list cfg now st (flatten (tclip dmc_clip_low dmc_clip_high action))
  else Err AssertionError.

(** The observations the simulator returns during the repeat loop,
    independent of the recording. *)
Fixpoint sim_trajectory (n : nat) (a : list Q) (env : Sim)
    : list (arr3 * Q * bool) :=
  match n with
  | O => []
  | S n' =>
      let '(env', o) := sim_step env a in o :: sim_trajectory n' a env'
  end.

(** The simulator states after each sub-step of the repeat loop (what
    [get_obs()] renders). *)
Fixpoint sim_states (n : nat) (a : list Q) (env : Sim) : list Sim :=
  match n with
  | O => []
  | S n' =>
      let '(env', _) := sim_step env a in env' :: sim_states n' a env'
  end.

(** States reachable by [reset()] followed by [step] calls. *)
Inductive dmc_reachable (cfg : dmc_cfg) : dmc -> Prop :=
| dmc_reach_reset st0 st tr :
    dmc_reset cfg st0 = (st, tr) -> dmc_reachable cfg st
| dmc_reach_step st now action st' files tr :
    dmc_reachable cfg st ->
    dmc_step cfg now st action = Ok (st', files, tr) ->
    dmc_reachable cfg st'.

End DeepMindControl.

Arguments Build_dmc {Sim} _ _ _ _ _ _.
Arguments d_env {Sim} _.
Arguments d_history {Sim} _.
Arguments d_num_channels {Sim} _.
Arguments d_episode_score {Sim} _.
Arguments d_episode_video {Sim} _.
Arguments d_episode_video_pre {Sim} _.
Arguments dmc_reset {Sim} _ _ _.
Arguments dmc_repeat {Sim} _ _ _ _ _ _ _ _ _ _ _.
Arguments dmc_step_list {Sim} _ _ _ _ _ _.
Arguments dmc_step {Sim} _ _ _ _ _ _.
Arguments sim_trajectory {Sim} _ _ _ _.
Arguments sim_states {Sim} _ _ _ _.
Arguments dmc_reachable {Sim} _ _ _ _ _.

(** ** AtariEnv (nnet/envs/atari/atari_env.py) *)

(** A frame of [gym.wrappers.AtariPreprocessing]: (H, W) when built with
    [grayscale_obs=True], (H, W, 3) otherwise. *)
Inductive aobs :=
| Gray (g : list (list Z))
| Rgb (x : arr3).

Fixpoint mapM {A B : Type} (f : A -> res B) (l : list A) : res (list B) :=
  match l with
  | [] => Ok []
  | x :: r => y <- f x ;; ys <- mapM f r ;; Ok (y :: ys)
  end.

Section Atari.

(** The preprocessing wrapper around [gym.envs.atari.AtariEnv]: its state,
    [env.reset()], [env.step(a)] (frame, reward, done; infos are dropped by
    the adapter), [env.env.ale.game_over()] and [env.env._get_image()]. *)
Variable ASim : Type.
Variable asim_reset : ASim -> ASim * aobs.
Variable asim_step : ASim -> Q -> ASim * (aobs * Q * bool).
Variable asim_game_over : ASim -> bool.
Variable asim_image : ASim -> arr3.

(** Constructor arguments of [AtariEnv]; [ac_num_actions] is
    [env.action_space.n]. *)
Record atari_cfg := {
  ac_img_size : nat * nat;
  ac_action_repeat : nat;
  ac_history_frames : nat;
  ac_episode_saving_path : option string;
  ac_terminal_on_life_loss : bool;
  ac_grayscale_obs : bool;
  ac_num_actions : nat }.

Definition atari_fps (cfg : atari_cfg) : Q :=
  60 / inject_Z (Z.of_nat (ac_action_repeat cfg)).

Record atari := {
  a_env : ASim;
  a_history : arr3;
  a_episode_score : Q;
  a_episode_video : recbuf arr3;
  a_episode_video_pre : recbuf aobs }.

(** [obs_space()]. *)
Definition atari_obs_space (cfg : atari_cfg) : list (string * list nat * string) :=
  if ac_grayscale_obs cfg
  then [("image", [(1 * ac_history_frames cfg)%nat; fst (ac_img_size cfg);
                   snd (ac_img_size cfg)], "uint8")%string]
  else [("image", [(3 * ac_history_frames cfg)%nat; fst (ac_img_size cfg);
                   snd (ac_img_size cfg)], "uint8")%string].

(** [sample()]: the one-hot vector of the drawn index [k]
    ([torch.randint(0, num_actions)]), as float32. *)
Definition atari_sample (cfg : atari_cfg) (k : nat) : tensor :=
  TArr (map (fun i => TScalar (if Nat.eqb i k then 1 else 0))
            (seq 0 (ac_num_actions cfg))).

(** [preprocess(state, reward, done)]: the frame to (C, H, W), and
    [is_last] from [ale.game_over()] when [terminal_on_life_loss]. The
    wrapper is built with the adapter's [grayscale_obs], so the frame kind
    always matches the flag; a mismatch is an error here. *)
Definition atari_preprocess (cfg : atari_cfg) (env : ASim) (o : aobs)
    (r : Q) (d : bool) : res (arr3 * Q * bool * bool) :=
  s <- (if ac_grayscale_obs cfg
        then match o with Gray g => Ok [g] | Rgb _ => Err RuntimeError end
        else match o with Rgb x => Ok (chw_of_hwc x) | Gray _ => Err RuntimeError end) ;;
  let is_last_t := if ac_terminal_on_life_loss cfg then asim_game_over env else d in
  Ok (s, r, d, is_last_t).

(** The [_pre] video: grayscale frames [unsqueeze(-1).repeat(1,1,1,3)]. *)
Definition atari_pre_video (cfg : atari_cfg) (l : list aobs) : res (list arr3) :=
  if ac_grayscale_obs cfg
  then mapM (fun o => match o with
                      | Gray g => Ok (map (map (fun v => [v; v; v])) g)
                      | Rgb _ => Err RuntimeError
                      end) l
  else mapM (fun o => match o with
                      | Rgb x => Ok x
                      | Gray _ => Err RuntimeError
                      end) l.

(** [reset()]. *)
Definition atari_reset (cfg : atari_cfg) (st : atari) : res (atari * transition) :=
  let '(env', o) := asim_reset (a_env st) in
  '(s, _, _, _) <- atari_preprocess cfg env' o 0 false ;;
  let '(vid, pre) :=
    match ac_episode_saving_path cfg with
    | Some _ => (BufList [], BufList [])
    | None => (a_episode_video st, a_episode_video_pre st)
    end in
  let history :=
    if 1 <? ac_history_frames cfg then repeat_ch (ac_history_frames cfg) s
    else s in
  Ok ({| a_env := env'; a_history := history; a_episode_score := 0;
         a_episode_video := vid; a_episode_video_pre := pre |},
      {| state := history; reward := 0; done := false; is_first := true;
         is_last := false |}).

(** [step(action)] once [action.item()] gave the scalar [a]. *)
Definition atari_step_scalar (cfg : atari_cfg) (now : string) (st : atari) (a : Q)
    : res (atari * list video_file * transition) :=
  let '(env', (o, r, d)) := asim_step (a_env st) a in
  let score := a_episode_score st + r in
  '(vid, pre) <-
    match ac_episode_saving_path cfg with
    | Some _ =>
        v <- buf_append (a_episode_video st) (asim_image env') ;;
        p <- buf_append (a_episode_video_pre st) o ;;
        Ok (v, p)
    | None => Ok (a_episode_video st, a_episode_video_pre st)
    end ;;
  '(vid2, pre2, files) <-
    match d, ac_episode_saving_path cfg with
    | true, Some path =>
        v <- buf_stack vid ;;
        p <- buf_stack pre ;;
        pv <- atari_pre_video cfg p ;;
        Ok (BufStacked v, BufStacked p,
            [write_video path now score false (atari_fps cfg) v;
             write_video path now score true (atari_fps cfg) pv])
    | _, _ => Ok (vid, pre, [])
    end ;;
  '(s, rw, dn, il) <- atari_preprocess cfg env' o r d ;;
  let history :=
    if 1 <? ac_history_frames cfg then
      if ac_grayscale_obs cfg then skipn 1 (a_history st) ++ s
      else skipn 3 (a_history st) ++ s
    else s in
  Ok ({| a_env := env'; a_history := history; a_episode_score := score;
         a_episode_video := vid2; a_episode_video_pre := pre2 |},
      files,
      {| state := history; reward := rw; done := dn; is_first := false;
         is_last := il |}).

(** [step(action)]: [self.env.step(action.item())]. *)
Definition atari_step (cfg : atari_cfg) (now : string) (st : atari) (action : tensor)
    : res (atari * list video_file * transition) :=
  a <- item action ;;
  atari_step_scalar cfg now st a.

Inductive atari_reachable (cfg : atari_cfg) : atari -> Prop :=
| atari_reach_reset st0 st tr :
    atari_reset cfg st0 = Ok (st, tr) -> atari_reachable cfg st
| atari_reach_step st now action st' files tr :
    atari_reachable cfg st ->
    atari_step cfg now st action = Ok (st', files, tr) ->
    atari_reachable cfg st'.

End Atari.

Arguments Build_atari {ASim} _ _ _ _ _.
Arguments a_env {ASim} _.
Arguments a_history {ASim} _.
Arguments a_episode_score {ASim} _.
Arguments a_episode_video {ASim} _.
Arguments a_episode_video_pre {ASim} _.
Arguments atari_preprocess {ASim} _ _ _ _ _ _.
Arguments atari_reset {ASim} _ _ _ _.
Arguments atari_step_scalar {ASim} _ _ _ _ _ _ _.
Arguments atari_step {ASim} _ _ _ _ _ _ _.
Arguments atari_reachable {ASim} _ _ _ _ _ _.

(** ** CollateFn (nnet/utils/collate_fn.py) *)

(** Dict keys of the collate params (names are strings or ints). *)
Inductive pykey :=
| KInt (z : Z)
| KStr (s : string).

Definition pykey_eqb (a b : pykey) : bool :=
  match a, b with
  | KInt x, KInt y => Z.eqb x y
  | KStr x, KStr y => String.eqb x y
  | _, _ => false
  end.

(** The values [collate] builds. *)
Inductive pyval :=
| PTensor (t : tensor)
| PList (l : list pyval)
| PTuple (l : list pyval)
| PDict (d : list (pykey * pyval)).

(** One collate param, the dict [{"axis": k}]. *)
Definition cparam := list (string * Z).

(** [collate_params]: a dict, a list or a tuple of collate params. *)
Inductive collate_params :=
| CDict (d : list (pykey * cparam))
| CList (l : list cparam)
| CTuple (l : list cparam).

(** [seq[i]] on a Python sequence: negative indices count from the end. *)
Definition py_index {A : Type} (l : list A) (i : Z) : res A :=
  let n := Z.of_nat (length l) in
  let j := if (i <? 0)%Z then (i + n)%Z else i in
  if ((0 <=? j)%Z && (j <? n)%Z)%bool
  then match nth_error l (Z.to_nat j) with
       | Some x => Ok x
       | None => Err IndexError
       end
  else Err IndexError.

(** [params["axis"]]. *)
Fixpoint str_lookup (k : string) (d : list (string * Z)) : res Z :=
  match d with
  | [] => Err KeyError
  | (k', v) :: r => if String.eqb k k' then Ok v else str_lookup k r
  end.

(** [d[k] = v] on a dict kept in insertion order. *)
Fixpoint dict_set (k : pykey) (v : pyval) (d : list (pykey * pyval))
    : list (pykey * pyval) :=
  match d with
  | [] => [(k, v)]
  | (k', v') :: r =>
      if pykey_eqb k k' then (k', v) :: r else (k', v') :: dict_set k v r
  end.

(** [d[k]]. *)
Fixpoint dict_get (k : pykey) (d : list (pykey * pyval)) : res pyval :=
  match d with
  | [] => Err KeyError
  | (k', v) :: r => if pykey_eqb k k' then Ok v else dict_get k r
  end.

(** [torch.stack([sample[params["axis"]] for sample in samples], axis=0)]:
    [params["axis"]] is evaluated inside the comprehension, once per sample
    (never for an empty [samples]). *)
Definition collate_one (samples : list (list tensor)) (params : cparam) : res tensor :=
  xs <- mapM (fun sample => axis <- str_lookup "axis" params ;; py_index sample axis)
             samples ;;
  stack xs.

(** [CollateFn.collate(samples, collate_params)]. *)
Definition collate (samples : list (list tensor)) (cp : collate_params) : res pyval :=
  collates <-
    match cp with
    | CDict d =>
        (fix go (d : list (pykey * cparam)) (acc : list (pykey * pyval)) :=
           match d with
           | [] => Ok (PDict acc)
           | (name, params) :: r =>
               t <- collate_one samples params ;;
               go r (dict_set name (PTensor t) acc)
           end) d []
    | CList l =>
        ts <- mapM (collate_one samples) l ;; Ok (PList (map PTensor ts))
    | CTuple l =>
        ts <- mapM (collate_one samples) l ;; Ok (PTuple (map PTensor ts))
    end ;;
  (* collates = collates[0] if len(collates) == 1 else collates *)
  match collates with
  | PDict d => if Nat.eqb (length d) 1 then dict_get (KInt 0) d else Ok collates
  | PList l | PTuple l => if Nat.eqb (length l) 1 then py_index l 0 else Ok collates
  | PTensor _ => Ok collates
  end.

(** [CollateFn.forward(samples)]. *)
Definition collate_forward (inputs_params targets_params : collate_params)
    (samples : list (list tensor)) : res (pyval * pyval) :=
  i <- collate samples inputs_params ;;
  t <- collate samples targets_params ;;
  Ok (i, t).

(** ** Small concrete simulators, used to evaluate the adapters *)

Module Toy.

(** A dm_control-like task on 1x1 RGB frames: the state counts simulator
    steps, each step pays 1/2, and [last()] holds at step [limit]. *)
Definition limit : nat := 2.

Definition dsim_reset (s : nat) : nat * arr3 := (0%nat, [[[0; 0; 0]]]%Z).

Definition dsim_step (s : nat) (a : list Q) : nat * (arr3 * Q * bool) :=
  (S s, ([[[Z.of_nat (S s); 0; 0]]]%Z, 1 # 2, Nat.eqb (S s) limit)).

Definition dsim_render (cam s : nat) : arr3 := [[[Z.of_nat s]]]%Z.

Definition dcfg (path : option string) : dmc_cfg :=
  {| dc_img_size := (1, 1)%nat; dc_history_frames := 2; dc_episode_saving_path := path;
     dc_camera_id := 0; dc_action_repeat := 2; dc_num_actions := 1 |}.

(** A continuous-control configuration with one sub-step per [step]: the
    toy task then reaches [last()] on the second step. *)
Definition dcfg1 : dmc_cfg :=
  {| dc_img_size := (1, 1)%nat; dc_history_frames := 2;
     dc_episode_saving_path := Some "videos"%string; dc_camera_id := 0;
     dc_action_repeat := 1; dc_num_actions := 1 |}.

Definition dinit : dmc nat :=
  {| d_env := 7%nat; d_history := []; d_num_channels := 0; d_episode_score := 0;
     d_episode_video := BufList []; d_episode_video_pre := BufList [] |}.

(** The adapter right after [reset()]. *)
Definition dstart (path : option string) : dmc nat :=
  fst (dmc_reset dsim_reset (dcfg path) dinit).

(** An Atari-like game on 1x1 grayscale frames: the state is the number of
    lives left; every action loses a life. Built with
    [terminal_on_life_loss], the wrapper reports [done] on each life lost,
    while [ale.game_over()] only holds with no life left. *)
Definition asim_reset (s : nat) : nat * aobs := (3%nat, Gray [[0%Z]]).

Definition asim_step (s : nat) (a : Q) : nat * (aobs * Q * bool) :=
  (pred s, (Gray [[Z.of_nat (pred s)]], 1, true)).

Definition asim_game_over (s : nat) : bool := Nat.eqb s 0.

Definition asim_image (s : nat) : arr3 := [[[Z.of_nat s; 0; 0]]]%Z.

Definition acfg (tol : bool) (path : option string) : atari_cfg :=
  {| ac_img_size := (1, 1)%nat; ac_action_repeat := 4; ac_history_frames := 2;
     ac_episode_saving_path := path; ac_terminal_on_life_loss := tol;
     ac_grayscale_obs := true; ac_num_actions := 4 |}.

Definition ainit : atari nat :=
  {| a_env := 0%nat; a_history := []; a_episode_score := 0;
     a_episode_video := BufList []; a_episode_video_pre := BufList [] |}.

Definition astep (tol : bool) (path : option string) :=
  atari_step asim_step asim_game_over asim_image (acfg tol path).

Definition areset (tol : bool) (path : option string) :=
  atari_reset asim_reset asim_game_over (acfg tol path).

(** The Atari adapter right after [reset()]. *)
Definition astart (tol : bool) (path : option string) : atari nat :=
  match areset tol path ainit with
  | Ok (st, _) => st
  | Err _ => ainit
  end.

End Toy.

(** ** Observation helpers *)

Definition obs_px (o : arr3 * Q * bool) : arr3 := let '(p, _, _) := o in p.
Definition obs_reward (o : arr3 * Q * bool) : Q := let '(_, r, _) := o in r.
Definition obs_done (o : arr3 * Q * bool) : bool := let '(_, _, d) := o in d.

(** The running sum [reward = 0.0; reward += step_reward]. *)
Definition running_sum (rs : list Q) : Q := fold_left Qplus rs 0.

(** The (C, H, W) observation of the last simulator step of a trajectory. *)
Definition newest_obs (traj : list (arr3 * Q * bool)) : option arr3 :=
  match rev traj with
  | o :: _ => Some (chw_of_hwc (obs_px o))
  | [] => None
  end.

(** An RGB frame of the Atari wrapper has 3 channels. *)
Definition aobs_ok (o : aobs) : Prop :=
  match o with
  | Rgb x => last_dim x = 3%nat
  | Gray _ => True
  end.

(** Channels per frame of the Atari adapter. *)
Definition atari_channels (cfg : atari_cfg) : nat :=
  if ac_grayscale_obs cfg then 1 else 3.

(** The channel entry of the first [obs_space()] shape. *)
Definition obs_space_channels (sp : list (string * list nat * string)) : nat :=
  match sp with
  | (_, c :: _, _) :: _ => c
  | _ => 0%nat
  end.

(** Induction on tensors, with the hypothesis for every sub-tensor. *)
Fixpoint tensor_rect' (P : tensor -> Prop) (HS : forall q, P (TScalar q))
    (HA : forall l, Forall P l -> P (TArr l)) (t : tensor) : P t :=
  match t with
  | TScalar q => HS q
  | TArr l =>
      HA l ((fix go (l : list tensor) : Forall P l :=
               match l with
               | [] => Forall_nil P
               | x :: r => Forall_cons x (tensor_rect' P HS HA x) (go r)
               end) l)
  end.

(** ** Task adapters (nnet/envs/dm_control/pendulum.py, acrobot.py, quadruped.py) *)

(** The body shared by the task adapters: [assert task in tasks], then
    [DeepMindControlEnv.__init__] (with the adapter's [camera_id]), then
    [self.num_actions = num_actions]. *)
Definition dmc_task_init (tasks : list string) (camera_id num_actions : nat)
    (task : string) (img_size : nat * nat) (history_frames : nat)
    (episode_saving_path : option string) (action_repeat : nat) : res dmc_cfg :=
  if existsb (String.eqb task) tasks
  then Ok {| dc_img_size := img_size; dc_history_frames := history_frames;
             dc_episode_saving_path := episode_saving_path; dc_camera_id := camera_id;
             dc_action_repeat := action_repeat; dc_num_actions := num_actions |}
  else Err AssertionError.

(** [Pendulum(task, img_size, history_frames, episode_saving_path, action_repeat)]. *)
Definition pendulum_cfg (task : string) (img_size : nat * nat) (history_frames : nat)
    (episode_saving_path : option string) (action_repeat : nat) : res dmc_cfg :=
  dmc_task_init ["swingup"%string] 0 1 task img_size history_frames
    episode_saving_path action_repeat.

(** [Acrobot(task, img_size, history_frames, episode_saving_path, action_repeat)]. *)
Definition acrobot_cfg (task : string) (img_size : nat * nat) (history_frames : nat)
    (episode_saving_path : option string) (action_repeat : nat) : res dmc_cfg :=
  dmc_task_init ["swingup"%string] 0 1 task img_size history_frames
    episode_saving_path action_repeat.

(** [Quadruped(img_size, history_frames, episode_saving_path, task, action_repeat)],
    built with [camera_id=2]. *)
Definition quadruped_cfg (img_size : nat * nat) (history_frames : nat)
    (episode_saving_path : option string) (task : string) (action_repeat : nat)
    : res dmc_cfg :=
  dmc_task_init ["walk"%string; "run"%string] 2 12 task img_size history_frames
    episode_saving_path action_repeat.

(** ** Default CollateFn params ([inputs_params=[{"axis": 0}]],
    [targets_params=[{"axis": 1}]]) *)

Definition default_inputs_params : collate_params := CList [[("axis"%string, 0%Z)]].
Definition default_targets_params : collate_params := CList [[("axis"%string, 1%Z)]].

(** ** Sequences of steps *)

(** A sequence of successful continuous-control [step] calls from [st] to
    [st'], with the rewards of their Transitions. *)
Inductive dmc_steps {Sim : Type} (sim_step : Sim -> list Q -> Sim * (arr3 * Q * bool))
    (sim_render : nat -> Sim -> arr3) (cfg : dmc_cfg) : dmc Sim -> list Q -> dmc Sim -> Prop :=
| dmc_steps_nil st : dmc_steps sim_step sim_render cfg st [] st
| dmc_steps_cons st now action st1 files tr rs st' :
    dmc_step sim_step sim_render cfg now st action = Ok (st1, files, tr) ->
    dmc_steps sim_step sim_render cfg st1 rs st' ->
    dmc_steps sim_step sim_render cfg st (reward tr :: rs) st'.

(** The same for the Atari adapter. *)
Inductive atari_steps {ASim : Type} (asim_step : ASim -> Q -> ASim * (aobs * Q * bool))
    (asim_game_over : ASim -> bool) (asim_image : ASim -> arr3) (cfg : atari_cfg)
    : atari ASim -> list Q -> atari ASim -> Prop :=
| atari_steps_nil st : atari_steps asim_step asim_game_over asim_image cfg st [] st
| atari_steps_cons st now action st1 files tr rs st' :
    atari_step asim_step asim_game_over asim_image cfg now st action = Ok (st1, files, tr) ->
    atari_steps asim_step asim_game_over asim_image cfg st1 rs st' ->
    atari_steps asim_step asim_game_over asim_image cfg st (reward tr :: rs) st'.

(** A sequence of successful continuous-control [step] calls from [st] to
    [st'], with the frames their sub-steps produced: the renders of the
    simulator after each sub-step, and the simulator's pixel observations. *)
Inductive dmc_recorded {Sim : Type} (sim_step : Sim -> list Q -> Sim * (arr3 * Q * bool))
    (sim_render : nat -> Sim -> arr3) (cfg : dmc_cfg)
    : dmc Sim -> list arr3 -> list arr3 -> dmc Sim -> Prop :=
| dmc_recorded_nil st : dmc_recorded sim_step sim_render cfg st [] [] st
| dmc_recorded_cons st now action st1 files tr raw pre st' :
    dmc_step sim_step sim_render cfg now st action = Ok (st1, files, tr) ->
    dmc_recorded sim_step sim_render cfg st1 raw pre st' ->
    dmc_recorded sim_step sim_render cfg st
      (map (sim_render (dc_camera_id cfg))
           (sim_states sim_step (dc_action_repeat cfg)
              (flatten (tclip dmc_clip_low dmc_clip_high action)) (d_env st)) ++ raw)
      (map obs_px (sim_trajectory sim_step (dc_action_repeat cfg)
                     (flatten (tclip dmc_clip_low dmc_clip_high action)) (d_env st)) ++ pre)
      st'.

(** The same for the Atari adapter: the image of the emulator after each
    step, and the wrapper's observation. *)
Inductive atari_recorded {ASim : Type} (asim_step : ASim -> Q -> ASim * (aobs * Q * bool))
    (asim_game_over : ASim -> bool) (asim_image : ASim -> arr3) (cfg : atari_cfg)
    : atari ASim -> list arr3 -> list aobs -> atari ASim -> Prop :=
| atari_recorded_nil st : atari_recorded asim_step asim_game_over asim_image cfg st [] [] st
| atari_recorded_cons st now action a o r d st1 files tr raw pre st' :
    item action = Ok a ->
    asim_step (a_env st) a = (a_env st1, (o, r, d)) ->
    atari_step asim_step asim_game_over asim_image cfg now st action = Ok (st1, files, tr) ->
    atari_recorded asim_step asim_game_over asim_image cfg st1 raw pre st' ->
    atari_recorded asim_step asim_game_over asim_image cfg st
      (asim_image (a_env st1) :: raw) (o :: pre) st'.

(** A regular (H, W, C) image with [C > 0]: every pixel has [C] channels. *)
Definition hwc_ok (x : arr3) : Prop :=
  (0 < last_dim x)%nat /\ Forall (Forall (fun px => length px = last_dim x)) x.

(** ** Proofs *)

(** *** Lists of channels *)

Open Scope nat_scope.

Lemma fold_orb_existsb {A : Type} (f : A -> bool) (l : list A) (b : bool) :
  fold_left orb (map f l) b = b || existsb f l.
Proof.
  revert b; induction l as [|x l IH]; intro b; simpl.
  - now rewrite orb_false_r.
  - rewrite IH. now rewrite orb_assoc.
Qed.

Lemma fold_some_last {A B : Type} (f : A -> B) (l : list A) (init : option B) :
  fold_left (fun _ o => Some (f o)) l init
  = match rev l with o :: _ => Some (f o) | [] => init end.
Proof.
  induction l as [|x l IH] using rev_ind; simpl; [reflexivity|].
  rewrite fold_left_app, rev_app_distr. reflexivity.
Qed.

Lemma chw_of_hwc_length (x : arr3) : length (chw_of_hwc x) = last_dim x.
Proof. unfold chw_of_hwc. now rewrite length_map, length_seq. Qed.

Lemma repeat_ch_length (h : nat) (x : arr3) :
  length (repeat_ch h x) = h * length x.
Proof. induction h as [|h IH]; simpl; [reflexivity|]. rewrite length_app, IH. lia. Qed.

Lemma repeat_ch_slice (h : nat) (x : arr3) (k : nat) :
  k < h -> frame_slice (length x) k (repeat_ch h x) = x.
Proof.
  unfold frame_slice. revert k.
  induction h as [|h IH]; intros k Hk; [lia|].
  simpl. destruct k as [|k].
  - simpl. rewrite firstn_app, firstn_all, Nat.sub_diag. simpl. apply app_nil_r.
  - replace (S k * length x) with (length x + k * length x) by lia.
    rewrite skipn_app, skipn_all2 by lia.
    replace (length x + k * length x - length x) with (k * length x) by lia.
    simpl. apply IH. lia.
Qed.

(** Dropping the oldest frame and appending the newest one. *)
Lemma slide_window {A : Type} (h c : nat) (old obs : list A) :
  1 <= h -> length old = h * c -> length obs = c ->
  firstn ((h - 1) * c) (skipn c old ++ obs) = lastn ((h - 1) * c) old /\
  lastn c (skipn c old ++ obs) = obs /\
  length (skipn c old ++ obs) = h * c.
Proof.
  intros Hh Hold Hobs.
  assert (Hs : length (skipn c old) = (h - 1) * c) by (rewrite length_skipn; nia).
  unfold lastn. repeat split.
  - rewrite firstn_app, Hs, Nat.sub_diag, firstn_all2 by lia. simpl.
    rewrite app_nil_r. f_equal. nia.
  - rewrite length_app, Hs, Hobs.
    replace ((h - 1) * c + c - c) with (length (skipn c old)) by lia.
    rewrite skipn_app, skipn_all, Nat.sub_diag. reflexivity.
  - rewrite length_app, Hs, Hobs. nia.
Qed.

Lemma buf_append_frames {A : Type} (b b' : recbuf A) (x : A) :
  buf_append b x = Ok b' -> buf_frames b' = buf_frames b ++ [x].
Proof. destruct b; simpl; intro H; inversion H; reflexivity. Qed.

Lemma buf_stack_frames {A : Type} (b : recbuf A) (l : list A) :
  buf_stack b = Ok l -> l = buf_frames b /\ l <> [].
Proof.
  unfold buf_stack. destruct (buf_frames b) as [|x r]; intro H; [discriminate|].
  inversion H; subst. split; [reflexivity|discriminate].
Qed.

Lemma flatten_TArr (l : list tensor) : flatten (TArr l) = concat (map flatten l).
Proof. induction l as [|x l IH]; simpl; [reflexivity|]. f_equal. exact IH. Qed.

Lemma flatten_tclip (lo hi : Q) (t : tensor) :
  flatten (tclip lo hi t) = map (clip_q lo hi) (flatten t).
Proof.
  induction t as [q|l IH] using tensor_rect'; [reflexivity|].
  simpl tclip. rewrite !flatten_TArr, concat_map, !map_map.
  f_equal. apply map_ext_in. intros x Hx.
  rewrite Forall_forall in IH. exact (IH x Hx).
Qed.

Lemma clip_q_bounds (lo hi x : Q) :
  (lo <= hi)%Q -> (lo <= clip_q lo hi x <= hi)%Q.
Proof.
  intro Hle. unfold clip_q. split.
  - apply Q.min_glb; [apply Q.le_max_r | exact Hle].
  - apply Q.le_min_r.
Qed.

Lemma flatten_one_hot (f : nat -> Q) (l : list nat) :
  flatten (TArr (map (fun i => TScalar (f i)) l)) = map f l.
Proof. induction l as [|x l IH]; simpl; [reflexivity|]. f_equal. exact IH. Qed.

Lemma map_nth_seq_self {A : Type} (l : list A) (d : A) :
  map (fun i => nth i l d) (seq 0 (length l)) = l.
Proof.
  induction l as [|x l IH]; simpl; [reflexivity|]. f_equal.
  rewrite <- seq_shift, map_map. exact IH.
Qed.

Lemma nth_map_lt {A B : Type} (g : A -> B) (l : list A) (i : nat) (d : A) (d' : B) :
  i < length l -> nth i (map g l) d' = g (nth i l d).
Proof.
  intro H. rewrite (nth_indep _ d' (g d)) by (rewrite length_map; exact H).
  apply map_nth.
Qed.

Lemma hwc_of_chw_of_hwc (x : arr3) :
  hwc_ok x -> hwc_of_chw (chw_of_hwc x) = x.
Proof.
  intros [HC HF]. unfold chw_of_hwc.
  set (f := fun c => map (fun row => map (fun px => nth c px 0%Z) row) x).
  destruct (last_dim x) as [|C] eqn:EC; [lia|].
  change (map f (seq 0 (S C))) with (f 0 :: map f (seq 1 C)).
  unfold hwc_of_chw. change (f 0 :: map f (seq 1 C)) with (map f (seq 0 (S C))).
  replace (length (f 0)) with (length x) by (unfold f; symmetry; apply length_map).
  transitivity (map (fun i => nth i x []) (seq 0 (length x))); [|apply map_nth_seq_self].
  apply map_ext_in. intros i Hi. apply in_seq in Hi.
  assert (Hrow : Forall (fun px => length px = S C) (nth i x [])).
  { rewrite Forall_forall in HF. apply HF. apply nth_In. lia. }
  assert (Hf0 : nth i (f 0) [] = map (fun px => nth 0 px 0%Z) (nth i x []))
    by (unfold f; apply (nth_map_lt _ _ _ [] []); lia).
  rewrite Hf0, length_map.
  transitivity (map (fun j => nth j (nth i x []) []) (seq 0 (length (nth i x []))));
    [|apply map_nth_seq_self].
  apply map_ext_in. intros j Hj. apply in_seq in Hj.
  rewrite map_map.
  assert (Hpx : length (nth j (nth i x []) []) = S C).
  { rewrite Forall_forall in Hrow. apply Hrow. apply nth_In. lia. }
  transitivity (map (fun c => nth c (nth j (nth i x []) []) 0%Z)
                  (seq 0 (length (nth j (nth i x []) []))));
    [|apply map_nth_seq_self]. rewrite Hpx.
  apply map_ext_in. intros c Hc. unfold f.
  rewrite (nth_map_lt _ _ _ [] []) by lia.
  rewrite (nth_map_lt _ _ _ [] 0%Z) by lia. reflexivity.
Qed.

Section Proofs.

Variable Sim : Type.
Variable sim_reset : Sim -> Sim * arr3.
Variable sim_step : Sim -> list Q -> Sim * (arr3 * Q * bool).
Variable sim_render : nat -> Sim -> arr3.

Variable ASim : Type.
Variable asim_reset : ASim -> ASim * aobs.
Variable asim_step : ASim -> Q -> ASim * (aobs * Q * bool).
Variable asim_game_over : ASim -> bool.
Variable asim_image : ASim -> arr3.

(** What the repeat loop returns: the running sum, the running [or] and the
    last observation of the simulator trajectory. *)
Lemma dmc_repeat_spec cfg n : forall a env vid pre rew dn last env' vid' pre' rew' dn' last',
  dmc_repeat sim_step sim_render cfg n a env vid pre rew dn last
    = Ok (env', vid', pre', rew', dn', last') ->
  rew' = fold_left Qplus (map obs_reward (sim_trajectory sim_step n a env)) rew /\
  dn' = fold_left orb (map obs_done (sim_trajectory sim_step n a env)) dn /\
  last' = fold_left (fun _ o => Some (chw_of_hwc (obs_px o)))
                    (sim_trajectory sim_step n a env) last.
Proof.
  induction n as [|n IH]; intros a env vid pre rew dn last env' vid' pre' rew' dn' last' H.
  - simpl in H. inversion H; subst. auto.
  - simpl in H |- *.
    destruct (sim_step env a) as [env1 [[px r] d]].
    destruct (dc_episode_saving_path cfg).
    + destruct (buf_append vid _); simpl in H; [|discriminate H].
      destruct (buf_append pre _); simpl in H; [|discriminate H].
      exact (IH _ _ _ _ _ _ _ _ _ _ _ _ _ H).
    + simpl in H. exact (IH _ _ _ _ _ _ _ _ _ _ _ _ _ H).
Qed.

(** The shape of a successful [step]: the loop result, the save branch and
    the returned attributes. *)
Lemma dmc_step_inv cfg now st action st' files tr :
  dmc_step sim_step sim_render cfg now st action = Ok (st', files, tr) ->
  let a := flatten (tclip dmc_clip_low dmc_clip_high action) in
  shape action = [dc_num_actions cfg] /\
  exists env' vid pre rew dn obs,
    dmc_repeat sim_step sim_render cfg (dc_action_repeat cfg) a (d_env st)
      (d_episode_video st) (d_episode_video_pre st) 0 false None
      = Ok (env', vid, pre, rew, dn, Some obs) /\
    d_env st' = env' /\
    d_history st' = skipn 3 (d_history st) ++ obs /\
    d_num_channels st' = d_num_channels st /\
    d_episode_score st' = (d_episode_score st + rew)%Q /\
    tr = {| state := d_history st'; reward := rew; done := false;
            is_first := false; is_last := false |} /\
    match dn, dc_episode_saving_path cfg with
    | true, Some path =>
        buf_stack vid = Ok (buf_frames (d_episode_video st')) /\
        buf_stack pre = Ok (buf_frames (d_episode_video_pre st')) /\
        d_episode_video st' = BufStacked (buf_frames (d_episode_video st')) /\
        d_episode_video_pre st' = BufStacked (buf_frames (d_episode_video_pre st')) /\
        files = [write_video path now (d_episode_score st') false dmc_fps
                   (buf_frames (d_episode_video st'));
                 write_video path now (d_episode_score st') true dmc_fps
                   (buf_frames (d_episode_video_pre st'))]
    | _, _ =>
        d_episode_video st' = vid /\ d_episode_video_pre st' = pre /\ files = []
    end.
Proof.
  intros H a.
  unfold dmc_step in H.
  destruct (list_eq_dec Nat.eq_dec (shape action) [dc_num_actions cfg]) as [Hs|Hs];
    [|discriminate H].
  split; [exact Hs|].
  unfold dmc_step_list in H. fold a in H.
  destruct (dmc_repeat sim_step sim_render cfg (dc_action_repeat cfg) a (d_env st)
              (d_episode_video st) (d_episode_video_pre st) 0 false None)
    as [[[[[[env' vid] pre] rew] dn] last]|e] eqn:R; simpl in H; [|discriminate H].
  destruct dn, (dc_episode_saving_path cfg) as [path|] eqn:Hp.
  - destruct (buf_stack vid) as [v|e] eqn:Hv; simpl in H; [|discriminate H].
    destruct (buf_stack pre) as [p|e] eqn:Hq; simpl in H; [|discriminate H].
    destruct last as [obs|]; simpl in H; [|discriminate H].
    inversion H; subst; clear H.
    exists env', vid, pre, rew, true, obs. simpl. repeat split; auto.
  - destruct last as [obs|]; simpl in H; [|discriminate H].
    inversion H; subst; clear H.
    exists env', vid, pre, rew, true, obs. simpl. repeat split; auto.
  - destruct last as [obs|]; simpl in H; [|discriminate H].
    inversion H; subst; clear H.
    exists env', vid, pre, rew, false, obs. simpl. repeat split; auto.
  - destruct last as [obs|]; simpl in H; [|discriminate H].
    inversion H; subst; clear H.
    exists env', vid, pre, rew, false, obs. simpl. repeat split; auto.
Qed.


Lemma sim_trajectory_step n a env o :
  In o (sim_trajectory sim_step n a env) -> exists s, snd (sim_step s a) = o.
Proof.
  revert env; induction n as [|n IH]; intros env Hin; simpl in Hin; [contradiction|].
  destruct (sim_step env a) as [env1 o1] eqn:E.
  destruct Hin as [<-|Hin].
  - exists env. now rewrite E.
  - exact (IH env1 Hin).
Qed.

(** A successful [step]: the loop's reward, its [or] of the sub-step flags,
    and the newest observation appended to the history. *)
Lemma dmc_step_loop cfg now st action st' files tr :
  dmc_step sim_step sim_render cfg now st action = Ok (st', files, tr) ->
  let traj := sim_trajectory sim_step (dc_action_repeat cfg)
                (flatten (tclip dmc_clip_low dmc_clip_high action)) (d_env st) in
  exists obs,
    newest_obs traj = Some obs /\
    d_history st' = skipn 3 (d_history st) ++ obs /\
    reward tr = running_sum (map obs_reward traj) /\
    done tr = false /\ is_last tr = false /\
    (files <> [] <-> dc_episode_saving_path cfg <> None /\ existsb obs_done traj = true).
Proof.
  intros H traj.
  destruct (dmc_step_inv _ _ _ _ _ _ _ H)
    as (_ & env' & vid & pre & rew & dn & obs & R & _ & Hh & _ & _ & Htr & Hsave).
  destruct (dmc_repeat_spec _ _ _ _ _ _ _ _ _ _ _ _ _ _ _ R) as [Hrew [Hdn Hlast]].
  fold traj in Hrew, Hdn, Hlast.
  rewrite fold_some_last in Hlast.
  rewrite fold_orb_existsb in Hdn. simpl in Hdn.
  exists obs. subst tr; simpl.
  split; [unfold newest_obs; exact (eq_sym Hlast)|].
  split; [exact Hh|]. split; [exact Hrew|].
  split; [reflexivity|]. split; [reflexivity|].
  split.
  - intro Hf. destruct dn, (dc_episode_saving_path cfg) as [path|];
      simpl in Hsave; destruct Hsave as (? & ? & Hf'); try (exfalso; congruence).
    split; [discriminate | auto].
  - intros [Hp Hd]. assert (Htrue : dn = true) by congruence. rewrite Htrue in Hsave.
    revert Hsave Hp. destruct (dc_episode_saving_path cfg) as [path|]; [|congruence].
    simpl. intros (_ & _ & _ & _ & ->) _. discriminate.
Qed.

(** Reachable states hold [history_frames] frames of 3 channels. *)
Lemma dmc_reachable_history cfg st :
  (forall s, last_dim (snd (sim_reset s)) = 3) ->
  (forall s a, last_dim (obs_px (snd (sim_step s a))) = 3) ->
  1 <= dc_history_frames cfg ->
  dmc_reachable sim_reset sim_step sim_render cfg st ->
  length (d_history st) = dc_history_frames cfg * 3 /\ d_num_channels st = 3.
Proof.
  intros Hr Hs H1 Hreach.
  induction Hreach as [st0 st tr Hreset | st now action st' files tr Hreach IH Hstep].
  - unfold dmc_reset in Hreset.
    specialize (Hr (d_env st0)).
    destruct (sim_reset (d_env st0)) as [env' px]; simpl in Hr.
    destruct (dc_episode_saving_path cfg); inversion Hreset; subst; simpl;
      rewrite ?repeat_ch_length, chw_of_hwc_length, Hr; auto.
  - destruct IH as [Hlen Hc].
    destruct (dmc_step_loop _ _ _ _ _ _ _ Hstep) as (obs & Hn & Hh & _).
    destruct (dmc_step_inv _ _ _ _ _ _ _ Hstep)
      as (_ & _ & _ & _ & _ & _ & _ & _ & _ & _ & Hnc & _).
    assert (Hobs : length obs = 3).
    { unfold newest_obs in Hn.
      destruct (rev _) as [|o l] eqn:E; [discriminate|].
      injection Hn as <-. rewrite chw_of_hwc_length.
      assert (Hin : In o (sim_trajectory sim_step (dc_action_repeat cfg)
                     (flatten (tclip dmc_clip_low dmc_clip_high action)) (d_env st))).
      { apply in_rev. rewrite E. now left. }
      destruct (sim_trajectory_step _ _ _ _ Hin) as [s0 <-]. apply Hs. }
    split; [|congruence].
    rewrite Hh. exact (proj2 (proj2 (slide_window _ _ _ _ H1 Hlen Hobs))).
Qed.


Lemma sim_trajectory_length n a env :
  length (sim_trajectory sim_step n a env) = n.
Proof.
  revert env; induction n as [|n IH]; intro env; simpl; [reflexivity|].
  destruct (sim_step env a). simpl. now rewrite IH.
Qed.

Lemma atari_preprocess_inv cfg env o r d s rw dn il :
  atari_preprocess asim_game_over cfg env o r d = Ok (s, rw, dn, il) ->
  rw = r /\ dn = d /\
  il = (if ac_terminal_on_life_loss cfg then asim_game_over env else d) /\
  length s = (if ac_grayscale_obs cfg then 1
              else match o with Rgb x => last_dim x | Gray _ => 0 end).
Proof.
  unfold atari_preprocess.
  destruct (ac_grayscale_obs cfg), o; simpl; intro H; inversion H; subst;
    rewrite ?chw_of_hwc_length; auto.
Qed.

(** The shape of a successful Atari [step]. *)
Lemma atari_step_inv cfg now st action st' files tr :
  atari_step asim_step asim_game_over asim_image cfg now st action = Ok (st', files, tr) ->
  exists a o r d s,
    item action = Ok a /\
    asim_step (a_env st) a = (a_env st', (o, r, d)) /\
    atari_preprocess asim_game_over cfg (a_env st') o r d = Ok (s, r, d, is_last tr) /\
    a_history st' =
      (if 1 <? ac_history_frames cfg then
         if ac_grayscale_obs cfg then skipn 1 (a_history st) ++ s
         else skipn 3 (a_history st) ++ s
       else s) /\
    a_episode_score st' = (a_episode_score st + r)%Q /\
    tr = {| state := a_history st'; reward := r; done := d; is_first := false;
            is_last := is_last tr |} /\
    match d, ac_episode_saving_path cfg with
    | true, Some path =>
        exists pv,
          atari_pre_video cfg (buf_frames (a_episode_video_pre st')) = Ok pv /\
          a_episode_video st' = BufStacked (buf_frames (a_episode_video st')) /\
          a_episode_video_pre st' = BufStacked (buf_frames (a_episode_video_pre st')) /\
          buf_frames (a_episode_video st')
            = buf_frames (a_episode_video st) ++ [asim_image (a_env st')] /\
          buf_frames (a_episode_video_pre st') = buf_frames (a_episode_video_pre st) ++ [o] /\
          files = [write_video path now (a_episode_score st') false (atari_fps cfg)
                     (buf_frames (a_episode_video st'));
                   write_video path now (a_episode_score st') true (atari_fps cfg) pv]
    | _, _ => files = []
    end.
Proof.
  intro H. unfold atari_step in H.
  destruct (item action) as [a|e] eqn:Hi; simpl in H; [|discriminate H].
  unfold atari_step_scalar in H.
  destruct (asim_step (a_env st) a) as [env' [[o r] d]] eqn:Hs.
  destruct (ac_episode_saving_path cfg) as [path|] eqn:Hp.
  - destruct (buf_append (a_episode_video st) (asim_image env')) as [v|e] eqn:Hv;
      simpl in H; [|discriminate H].
    destruct (buf_append (a_episode_video_pre st) o) as [p|e] eqn:Hq;
      simpl in H; [|discriminate H].
    destruct d.
    + destruct (buf_stack v) as [v'|e] eqn:Hv'; simpl in H; [|discriminate H].
      destruct (buf_stack p) as [p'|e] eqn:Hp'; simpl in H; [|discriminate H].
      destruct (atari_pre_video cfg p') as [pv|e] eqn:Hpv; simpl in H; [|discriminate H].
      destruct (atari_preprocess asim_game_over cfg env' o r true)
        as [[[[s rw] dn] il]|e] eqn:Hpp; simpl in H; [|discriminate H].
      destruct (atari_preprocess_inv _ _ _ _ _ _ _ _ _ Hpp) as (-> & -> & _).
      inversion H; subst; clear H.
      exists a, o, r, true, s. simpl.
      destruct (buf_stack_frames _ _ Hv') as [-> _].
      destruct (buf_stack_frames _ _ Hp') as [-> _].
      repeat split; auto.
      exists pv. repeat split; auto using buf_append_frames.
    + destruct (atari_preprocess asim_game_over cfg env' o r false)
        as [[[[s rw] dn] il]|e] eqn:Hpp; simpl in H; [|discriminate H].
      destruct (atari_preprocess_inv _ _ _ _ _ _ _ _ _ Hpp) as (-> & -> & _).
      inversion H; subst; clear H.
      exists a, o, r, false, s. simpl. repeat split; auto.
  - simpl in H.
    destruct d;
      (destruct (atari_preprocess asim_game_over cfg env' o r _)
        as [[[[s rw] dn] il]|e] eqn:Hpp; simpl in H; [|discriminate H]);
      destruct (atari_preprocess_inv _ _ _ _ _ _ _ _ _ Hpp) as (-> & -> & _);
      inversion H; subst; clear H;
      eexists _, o, r, _, s; simpl; repeat split; auto.
Qed.


Lemma atari_preprocess_channels cfg env o r d s rw dn il :
  aobs_ok o ->
  atari_preprocess asim_game_over cfg env o r d = Ok (s, rw, dn, il) ->
  length s = atari_channels cfg.
Proof.
  unfold atari_preprocess, atari_channels.
  destruct (ac_grayscale_obs cfg), o; simpl; intros Hok H; inversion H; subst;
    rewrite ?chw_of_hwc_length; auto.
Qed.

Lemma atari_reset_inv cfg st st' tr :
  atari_reset asim_reset asim_game_over cfg st = Ok (st', tr) ->
  exists s x y z,
    atari_preprocess asim_game_over cfg (fst (asim_reset (a_env st)))
      (snd (asim_reset (a_env st))) 0 false = Ok (s, x, y, z) /\
    a_history st' = (if 1 <? ac_history_frames cfg
                     then repeat_ch (ac_history_frames cfg) s else s) /\
    a_episode_score st' = 0%Q /\
    (ac_episode_saving_path cfg <> None ->
     a_episode_video st' = BufList [] /\ a_episode_video_pre st' = BufList []) /\
    tr = {| state := a_history st'; reward := 0; done := false; is_first := true;
            is_last := false |}.
Proof.
  unfold atari_reset. destruct (asim_reset (a_env st)) as [env' o]; simpl.
  destruct (atari_preprocess asim_game_over cfg env' o 0 false)
    as [[[[s x] y] z]|e] eqn:Hpp; simpl; intro H; [|discriminate H].
  exists s, x, y, z. split; [reflexivity|].
  destruct (ac_episode_saving_path cfg); inversion H; subst; simpl;
    repeat split; auto; congruence.
Qed.

(** Reachable Atari states hold [history_frames] frames. *)
Lemma atari_reachable_history cfg st :
  (forall s, aobs_ok (snd (asim_reset s))) ->
  (forall s a, aobs_ok (fst (fst (snd (asim_step s a))))) ->
  1 <= ac_history_frames cfg ->
  atari_reachable asim_reset asim_step asim_game_over asim_image cfg st ->
  length (a_history st) = ac_history_frames cfg * atari_channels cfg.
Proof.
  intros Hr Hs H1 Hreach.
  induction Hreach as [st0 st tr Hreset | st now action st' files tr Hreach IH Hstep].
  - destruct (atari_reset_inv _ _ _ _ Hreset) as (s & x & y & z & Hpp & Hh & _).
    pose proof (atari_preprocess_channels _ _ _ _ _ _ _ _ _ (Hr _) Hpp) as Hc.
    rewrite Hh. destruct (Nat.ltb_spec 1 (ac_history_frames cfg)).
    + now rewrite repeat_ch_length, Hc.
    + replace (ac_history_frames cfg) with 1 by lia. simpl. lia.
  - destruct (atari_step_inv _ _ _ _ _ _ _ Hstep)
      as (a & o & r & d & s & _ & Hst & Hpp & Hh & _).
    assert (Hok : aobs_ok o) by (specialize (Hs (a_env st) a); rewrite Hst in Hs; exact Hs).
    pose proof (atari_preprocess_channels _ _ _ _ _ _ _ _ _ Hok Hpp) as Hc.
    rewrite Hh. destruct (Nat.ltb_spec 1 (ac_history_frames cfg)).
    + unfold atari_channels in IH, Hc |- *.
      destruct (ac_grayscale_obs cfg);
        exact (proj2 (proj2 (slide_window _ _ _ _ H1 IH Hc))).
    + replace (ac_history_frames cfg) with 1 by lia. lia.
Qed.

(** ** C5 *)

(** Claim C5: for both adapters, [reset()] returns a Transition with
    [is_first = true], [reward = 0], [done = false], [is_last = false],
    whose state is the History Buffer, made of [history_frames] copies of
    the first observation after the reset: every frame slice equals it
    (for [history_frames >= 1]). *)
Theorem reset_fills_history :
  (forall cfg st st' tr,
     dmc_reset sim_reset cfg st = (st', tr) ->
     let obs := chw_of_hwc (snd (sim_reset (d_env st))) in
     is_first tr = true /\ reward tr = 0%Q /\ done tr = false /\ is_last tr = false /\
     state tr = d_history st' /\
     length (state tr) = dc_history_frames cfg * length obs /\
     (forall k, k < dc_history_frames cfg -> frame_slice (length obs) k (state tr) = obs)) /\
  (forall cfg st st' tr,
     1 <= ac_history_frames cfg ->
     atari_reset asim_reset asim_game_over cfg st = Ok (st', tr) ->
     exists obs x y z,
       atari_preprocess asim_game_over cfg (fst (asim_reset (a_env st)))
         (snd (asim_reset (a_env st))) 0 false = Ok (obs, x, y, z) /\
       is_first tr = true /\ reward tr = 0%Q /\ done tr = false /\ is_last tr = false /\
       state tr = a_history st' /\
       length (state tr) = ac_history_frames cfg * length obs /\
       (forall k, k < ac_history_frames cfg -> frame_slice (length obs) k (state tr) = obs)).
Proof.
  split.
  - intros cfg st st' tr H obs.
    unfold dmc_reset in H. subst obs.
    destruct (sim_reset (d_env st)) as [env' px]; simpl.
    destruct (dc_episode_saving_path cfg); inversion H; subst; simpl;
      repeat split; auto using repeat_ch_length, repeat_ch_slice.
  - intros cfg st st' tr H1 H.
    destruct (atari_reset_inv _ _ _ _ H) as (s & x & y & z & Hpp & Hh & _ & _ & ->).
    exists s, x, y, z. simpl. rewrite Hh.
    destruct (Nat.ltb_spec 1 (ac_history_frames cfg)).
    + repeat split; auto using repeat_ch_length, repeat_ch_slice.
    + replace (ac_history_frames cfg) with 1 by lia.
      repeat split; auto; try (simpl; lia).
      intros k Hk. replace k with 0 by lia. unfold frame_slice. simpl.
      apply firstn_all.
Qed.


(** ** C6 *)

(** Claim C6: after a step from a reachable state, the first
    [(H-1)*C] channels of the History Buffer are the last [(H-1)*C]
    channels of the previous one, and its last [C] channels are the newest
    observation. For the continuous-control adapter [C] is the channel count
    discovered at reset (3: the simulator renders RGB) and the newest
    observation is that of the last simulator sub-step; for the Atari
    adapter [C] is 1 (grayscale) or 3 and the newest observation is the
    preprocessed frame of this step. *)
Theorem history_sliding_window :
  (forall cfg now st action st' files tr,
     (forall s, last_dim (snd (sim_reset s)) = 3) ->
     (forall s a, last_dim (obs_px (snd (sim_step s a))) = 3) ->
     1 <= dc_history_frames cfg ->
     dmc_reachable sim_reset sim_step sim_render cfg st ->
     dmc_step sim_step sim_render cfg now st action = Ok (st', files, tr) ->
     let H := dc_history_frames cfg in
     let C := d_num_channels st in
     C = 3 /\ d_num_channels st' = C /\ state tr = d_history st' /\
     firstn ((H - 1) * C) (d_history st') = lastn ((H - 1) * C) (d_history st) /\
     Some (lastn C (d_history st'))
       = newest_obs (sim_trajectory sim_step (dc_action_repeat cfg)
                       (flatten (tclip dmc_clip_low dmc_clip_high action)) (d_env st))) /\
  (forall cfg now st action st' files tr,
     (forall s, aobs_ok (snd (asim_reset s))) ->
     (forall s a, aobs_ok (fst (fst (snd (asim_step s a))))) ->
     1 <= ac_history_frames cfg ->
     atari_reachable asim_reset asim_step asim_game_over asim_image cfg st ->
     atari_step asim_step asim_game_over asim_image cfg now st action = Ok (st', files, tr) ->
     let H := ac_history_frames cfg in
     let C := atari_channels cfg in
     state tr = a_history st' /\
     firstn ((H - 1) * C) (a_history st') = lastn ((H - 1) * C) (a_history st) /\
     exists a o r d s x,
       item action = Ok a /\
       asim_step (a_env st) a = (a_env st', (o, r, d)) /\
       atari_preprocess asim_game_over cfg (a_env st') o r d = Ok (s, r, d, x) /\
       lastn C (a_history st') = s).
Proof.
  split.
  - intros cfg now st action st' files tr Hr Hs H1 Hreach Hstep H C.
    destruct (dmc_reachable_history _ _ Hr Hs H1 Hreach) as [Hlen Hc].
    destruct (dmc_step_loop _ _ _ _ _ _ _ Hstep) as (obs & Hn & Hh & _).
    destruct (dmc_step_inv _ _ _ _ _ _ _ Hstep)
      as (_ & ? & ? & ? & ? & ? & ? & _ & _ & _ & Hnc & _ & Htr & _).
    assert (Hobs : length obs = 3).
    { unfold newest_obs in Hn.
      destruct (rev _) as [|o l] eqn:E; [discriminate|].
      injection Hn as <-. rewrite chw_of_hwc_length.
      assert (Hin : In o (sim_trajectory sim_step (dc_action_repeat cfg)
                     (flatten (tclip dmc_clip_low dmc_clip_high action)) (d_env st))).
      { apply in_rev. rewrite E. now left. }
      destruct (sim_trajectory_step _ _ _ _ Hin) as [s0 <-]. apply Hs. }
    subst H C. rewrite Hc in *.
    destruct (slide_window _ _ _ _ H1 Hlen Hobs) as (Hf & Hl & _).
    rewrite Htr, Hh. cbn [state]. repeat split; try congruence.
    now rewrite Hl, Hn.
  - intros cfg now st action st' files tr Hr Hs H1 Hreach Hstep H C.
    pose proof (atari_reachable_history _ _ Hr Hs H1 Hreach) as Hlen.
    destruct (atari_step_inv _ _ _ _ _ _ _ Hstep)
      as (a & o & r & d & s & Hi & Hst & Hpp & Hh & _ & Htr & _).
    assert (Hok : aobs_ok o) by (specialize (Hs (a_env st) a); rewrite Hst in Hs; exact Hs).
    pose proof (atari_preprocess_channels _ _ _ _ _ _ _ _ _ Hok Hpp) as Hc.
    subst H C.
    split; [rewrite Htr; reflexivity|].
    rewrite Hh. destruct (Nat.ltb_spec 1 (ac_history_frames cfg)) as [Hlt|Hge].
    + assert (Hw : forall c, c = atari_channels cfg ->
                firstn ((ac_history_frames cfg - 1) * c) (skipn c (a_history st) ++ s)
                  = lastn ((ac_history_frames cfg - 1) * c) (a_history st) /\
                lastn c (skipn c (a_history st) ++ s) = s).
      { intros c ->. destruct (slide_window _ _ _ _ H1 Hlen Hc) as (? & ? & _). auto. }
      unfold atari_channels in Hw |- *.
      destruct (ac_grayscale_obs cfg); destruct (Hw _ eq_refl) as [Hf Hl];
        (split; [exact Hf| exists a, o, r, d, s, (is_last tr); repeat split; auto]).
    + replace (ac_history_frames cfg) with 1 in * by lia. simpl.
      split; [unfold lastn; now rewrite Nat.sub_0_r, skipn_all|].
      exists a, o, r, d, s, (is_last tr). repeat split; auto.
      unfold lastn. rewrite Hc, Nat.sub_diag. reflexivity.
Qed.


(** ** C1 *)

(** Claim C1, as amended: the continuous-control [step] ORs the
    termination flags of its [action_repeat] simulator sub-steps into an
    internal [done], which decides whether the episode videos are written;
    the [done] (and [is_last]) field of the returned Transition is always
    false. *)
Theorem dmc_step_done_internal cfg now st action st' files tr :
  dmc_step sim_step sim_render cfg now st action = Ok (st', files, tr) ->
  let traj := sim_trajectory sim_step (dc_action_repeat cfg)
                (flatten (tclip dmc_clip_low dmc_clip_high action)) (d_env st) in
  length traj = dc_action_repeat cfg /\
  done tr = false /\ is_last tr = false /\
  (files <> [] <-> dc_episode_saving_path cfg <> None /\ existsb obs_done traj = true).
Proof.
  intros H traj.
  destruct (dmc_step_loop _ _ _ _ _ _ _ H) as (obs & _ & _ & _ & Hd & Hl & Hf).
  split; [apply sim_trajectory_length|]. auto.
Qed.

(** ** C7 *)

(** Claim C7: the reward of the continuous-control [step] is the running
    sum, from 0, of the rewards of its [action_repeat] simulator sub-steps,
    in order. *)
Theorem dmc_step_reward_sum cfg now st action st' files tr :
  dmc_step sim_step sim_render cfg now st action = Ok (st', files, tr) ->
  let traj := sim_trajectory sim_step (dc_action_repeat cfg)
                (flatten (tclip dmc_clip_low dmc_clip_high action)) (d_env st) in
  length traj = dc_action_repeat cfg /\
  reward tr = running_sum (map obs_reward traj).
Proof.
  intros H traj.
  destruct (dmc_step_loop _ _ _ _ _ _ _ H) as (obs & _ & _ & Hr & _).
  split; [apply sim_trajectory_length | exact Hr].
Qed.

(** ** C2 *)

(** Claim C2, as amended: the continuous-control [step] only asserts the
    shape [(num_actions,)] (an AssertionError otherwise) and forwards the
    values clipped to [[-1, 1]]; the Atari [step] performs no validation:
    [action.item()] raises a RuntimeError unless the tensor has exactly one
    element, and that element, whatever its value, is passed on to the
    simulator. *)
Theorem step_action_validation :
  (forall cfg now st action,
     shape action <> [dc_num_actions cfg] ->
     dmc_step sim_step sim_render cfg now st action = Err AssertionError) /\
  (forall cfg now st action,
     shape action = [dc_num_actions cfg] ->
     dmc_step sim_step sim_render cfg now st action
       = dmc_step_list sim_step sim_render cfg now st
           (map (clip_q dmc_clip_low dmc_clip_high) (flatten action)) /\
     Forall (fun q => dmc_clip_low <= q <= dmc_clip_high)%Q
       (map (clip_q dmc_clip_low dmc_clip_high) (flatten action))) /\
  (forall cfg now st action,
     length (flatten action) <> 1 ->
     atari_step asim_step asim_game_over asim_image cfg now st action = Err RuntimeError) /\
  (forall cfg now st action a,
     flatten action = [a] ->
     atari_step asim_step asim_game_over asim_image cfg now st action
       = atari_step_scalar asim_step asim_game_over asim_image cfg now st a).
Proof.
  split; [|split; [|split]].
  - intros cfg now st action Hs. unfold dmc_step.
    destruct (list_eq_dec Nat.eq_dec _ _); [contradiction | reflexivity].
  - intros cfg now st action Hs. unfold dmc_step.
    destruct (list_eq_dec Nat.eq_dec _ _); [|contradiction].
    split; [now rewrite flatten_tclip|].
    apply Forall_forall. intros q Hq.
    apply in_map_iff in Hq. destruct Hq as [x [<- _]].
    apply clip_q_bounds. unfold dmc_clip_low, dmc_clip_high.
    unfold Qle; simpl; lia.
  - intros cfg now st action Hl. unfold atari_step, item.
    destruct (flatten action) as [|q [|q' r]]; simpl in Hl; try reflexivity; lia.
  - intros cfg now st action a Ha. unfold atari_step, item. now rewrite Ha.
Qed.

(** ** C9 *)

(** Claim C9: with more than one action, the one-hot vector of the Atari
    [sample()] makes [step] fail ([item()] raises a RuntimeError), and
    [step] only succeeds on one-element action tensors. *)
Theorem atari_step_rejects_sample :
  (forall cfg k now st,
     1 < ac_num_actions cfg -> k < ac_num_actions cfg ->
     length (flatten (atari_sample cfg k)) = ac_num_actions cfg /\
     item (atari_sample cfg k) = Err RuntimeError /\
     atari_step asim_step asim_game_over asim_image cfg now st (atari_sample cfg k)
       = Err RuntimeError) /\
  (forall cfg now st action r,
     atari_step asim_step asim_game_over asim_image cfg now st action = Ok r ->
     length (flatten action) = 1).
Proof.
  split.
  - intros cfg k now st Hn Hk.
    assert (Hl : length (flatten (atari_sample cfg k)) = ac_num_actions cfg).
    { unfold atari_sample. now rewrite flatten_one_hot, length_map, length_seq. }
    assert (Hi : item (atari_sample cfg k) = Err RuntimeError).
    { unfold item. destruct (flatten (atari_sample cfg k)) as [|q [|q' l]];
        simpl in Hl; [reflexivity| lia | reflexivity]. }
    split; [exact Hl|]. split; [exact Hi|].
    unfold atari_step. now rewrite Hi.
  - intros cfg now st action r H. unfold atari_step, item in H.
    destruct (flatten action) as [|q [|q' l]]; simpl in H; try discriminate H.
    reflexivity.
Qed.


(** *** What the recording buffers receive *)

(** With recording enabled, the repeat loop appends one render per
    sub-step to the raw buffer and the pixel frame, back in (H, W, C), to
    the preprocessed one. *)
Lemma dmc_repeat_recording cfg path n :
  dc_episode_saving_path cfg = Some path ->
  forall a env vid pre rew dn last env' vid' pre' rew' dn' last',
  dmc_repeat sim_step sim_render cfg n a env vid pre rew dn last
    = Ok (env', vid', pre', rew', dn', last') ->
  buf_frames vid' = buf_frames vid ++
    map (sim_render (dc_camera_id cfg)) (sim_states sim_step n a env) /\
  buf_frames pre' = buf_frames pre ++
    map (fun o => hwc_of_chw (chw_of_hwc (obs_px o))) (sim_trajectory sim_step n a env).
Proof.
  intro Hp. induction n as [|n IH];
    intros a env vid pre rew dn last env' vid' pre' rew' dn' last' H; simpl in H |- *.
  - inversion H; subst. rewrite !app_nil_r. auto.
  - destruct (sim_step env a) as [env1 [[px r] d]]. rewrite Hp in H. simpl in H.
    destruct (buf_append vid _) as [v|e] eqn:Hv; simpl in H; [|discriminate H].
    destruct (buf_append pre _) as [q|e] eqn:Hq; simpl in H; [|discriminate H].
    destruct (IH _ _ _ _ _ _ _ _ _ _ _ _ _ H) as [H1 H2].
    rewrite H1, H2, (buf_append_frames _ _ _ Hq), (buf_append_frames _ _ _ Hv).
    rewrite <- !app_assoc. split; reflexivity.
Qed.

(** A continuous-control step with recording enabled: the buffers end with
    the renders and the pixel frames of its sub-steps (stacked or not). *)
Lemma dmc_step_recording cfg path now st action st' files tr :
  (forall s a, hwc_ok (obs_px (snd (sim_step s a)))) ->
  dc_episode_saving_path cfg = Some path ->
  dmc_step sim_step sim_render cfg now st action = Ok (st', files, tr) ->
  let a := flatten (tclip dmc_clip_low dmc_clip_high action) in
  buf_frames (d_episode_video st') = buf_frames (d_episode_video st) ++
    map (sim_render (dc_camera_id cfg)) (sim_states sim_step (dc_action_repeat cfg) a (d_env st)) /\
  buf_frames (d_episode_video_pre st') = buf_frames (d_episode_video_pre st) ++
    map obs_px (sim_trajectory sim_step (dc_action_repeat cfg) a (d_env st)).
Proof.
  intros Hok Hp H a.
  destruct (dmc_step_inv _ _ _ _ _ _ _ H)
    as (_ & env' & vid & pre & rew & dn & obs & R & _ & _ & _ & _ & _ & Hsave).
  destruct (dmc_repeat_recording _ _ _ Hp _ _ _ _ _ _ _ _ _ _ _ _ _ R) as [Hvid Hpre].
  assert (Hb : buf_frames (d_episode_video st') = buf_frames vid /\
               buf_frames (d_episode_video_pre st') = buf_frames pre).
  { rewrite Hp in Hsave. destruct dn.
    - destruct Hsave as (Hv & Hq & _).
      split; [exact (proj1 (buf_stack_frames _ _ Hv))
                       | exact (proj1 (buf_stack_frames _ _ Hq))].
    - destruct Hsave as (-> & -> & _). auto. }
  destruct Hb as [-> ->]. split; [exact Hvid|].
  rewrite Hpre. f_equal. apply map_ext_in. intros o Hin.
  destruct (sim_trajectory_step _ _ _ _ Hin) as [s0 <-].
  apply hwc_of_chw_of_hwc. apply Hok.
Qed.

(** An Atari step with recording enabled: the buffers end with the
    emulator's image and the wrapper's observation. *)
Lemma atari_step_recording cfg path now st action st' files tr :
  ac_episode_saving_path cfg = Some path ->
  atari_step asim_step asim_game_over asim_image cfg now st action = Ok (st', files, tr) ->
  exists a o r d,
    item action = Ok a /\ asim_step (a_env st) a = (a_env st', (o, r, d)) /\
    buf_frames (a_episode_video st')
      = buf_frames (a_episode_video st) ++ [asim_image (a_env st')] /\
    buf_frames (a_episode_video_pre st') = buf_frames (a_episode_video_pre st) ++ [o].
Proof.
  intros Hp H.
  unfold atari_step in H. destruct (item action) as [a|e] eqn:Hi; simpl in H; [|discriminate H].
  unfold atari_step_scalar in H.
  destruct (asim_step (a_env st) a) as [env' [[o r] d]] eqn:Hs.
  rewrite Hp in H.
  destruct (buf_append (a_episode_video st) (asim_image env')) as [v|e] eqn:Hv;
    simpl in H; [|discriminate H].
  destruct (buf_append (a_episode_video_pre st) o) as [q|e] eqn:Hq;
    simpl in H; [|discriminate H].
  exists a, o, r, d.
  destruct d.
  - destruct (buf_stack v) as [v'|e] eqn:Hv'; simpl in H; [|discriminate H].
    destruct (buf_stack q) as [q'|e] eqn:Hq'; simpl in H; [|discriminate H].
    destruct (atari_pre_video cfg q') as [pv|e]; simpl in H; [|discriminate H].
    destruct (atari_preprocess asim_game_over cfg env' o r true)
      as [[[[s rw] dn] il]|e]; simpl in H; [|discriminate H].
    inversion H; subst; clear H. simpl.
    rewrite (proj1 (buf_stack_frames _ _ Hv')), (proj1 (buf_stack_frames _ _ Hq')).
    rewrite (buf_append_frames _ _ _ Hv), (buf_append_frames _ _ _ Hq). auto.
  - destruct (atari_preprocess asim_game_over cfg env' o r false)
      as [[[[s rw] dn] il]|e]; simpl in H; [|discriminate H].
    inversion H; subst; clear H. simpl.
    rewrite (buf_append_frames _ _ _ Hv), (buf_append_frames _ _ _ Hq). auto.
Qed.

(** Along a sequence of steps with recording enabled, the buffers gain
    exactly the recorded frames. *)
Lemma dmc_recorded_frames cfg path st raw pre st' :
  (forall s a, hwc_ok (obs_px (snd (sim_step s a)))) ->
  dc_episode_saving_path cfg = Some path ->
  dmc_recorded sim_step sim_render cfg st raw pre st' ->
  buf_frames (d_episode_video st') = buf_frames (d_episode_video st) ++ raw /\
  buf_frames (d_episode_video_pre st') = buf_frames (d_episode_video_pre st) ++ pre.
Proof.
  intros Hok Hp.
  induction 1 as [st|st now action st1 files tr raw pre st' H _ IH].
  - rewrite !app_nil_r. auto.
  - destruct (dmc_step_recording _ _ _ _ _ _ _ _ Hok Hp H) as [Hv Hq].
    destruct IH as [IHv IHq].
    rewrite IHv, IHq, Hv, Hq, <- !app_assoc. auto.
Qed.

Lemma atari_recorded_frames cfg path st raw pre st' :
  ac_episode_saving_path cfg = Some path ->
  atari_recorded asim_step asim_game_over asim_image cfg st raw pre st' ->
  buf_frames (a_episode_video st') = buf_frames (a_episode_video st) ++ raw /\
  buf_frames (a_episode_video_pre st') = buf_frames (a_episode_video_pre st) ++ pre.
Proof.
  intros Hp.
  induction 1 as [st|st now action a o r d st1 files tr raw pre st' Hi Hs H _ IH].
  - rewrite !app_nil_r. auto.
  - destruct (atari_step_recording _ _ _ _ _ _ _ _ Hp H)
      as (a' & o' & r' & d' & Hi' & Hs' & Hv & Hq).
    rewrite Hi in Hi'. injection Hi' as <-. rewrite Hs in Hs'.
    injection Hs' as <- _ _.
    destruct IH as [IHv IHq].
    rewrite IHv, IHq, Hv, Hq, <- !app_assoc. auto.
Qed.

(** ** C3 *)

(** Claim C3, as amended: with recording enabled, a step that observes
    [done] (for the continuous-control adapter: the internal OR of its
    sub-step flags) writes, before returning, two videos named by the
    timestamp and the final episode score, [<stamp>_<score>.mp4] holding
    the raw frames and [<stamp>_<score>_pre.mp4] the preprocessed ones, all
    frames appended since the last reset. The recording buffers are then
    not emptied: they hold the stacked frames, and only the next [reset()]
    makes them empty lists again. The last two conjuncts follow an episode:
    after [reset()] and the steps recorded by [dmc_recorded] /
    [atari_recorded], the two files hold every frame of those steps, in
    order, then the frames of the saving step (the simulator renders
    regular (H, W, C) images). *)
Theorem recording_flush_on_done :
  (forall cfg path now st action st' files tr,
     dc_episode_saving_path cfg = Some path ->
     dmc_step sim_step sim_render cfg now st action = Ok (st', files, tr) ->
     existsb obs_done (sim_trajectory sim_step (dc_action_repeat cfg)
                        (flatten (tclip dmc_clip_low dmc_clip_high action)) (d_env st)) = true ->
     files = [write_video path now (d_episode_score st') false dmc_fps
                (buf_frames (d_episode_video st'));
              write_video path now (d_episode_score st') true dmc_fps
                (buf_frames (d_episode_video_pre st'))] /\
     d_episode_video st' = BufStacked (buf_frames (d_episode_video st')) /\
     buf_frames (d_episode_video st') <> [] /\
     d_episode_video_pre st' = BufStacked (buf_frames (d_episode_video_pre st')) /\
     buf_frames (d_episode_video_pre st') <> [] /\
     (forall st'' tr', dmc_reset sim_reset cfg st' = (st'', tr') ->
        d_episode_video st'' = BufList [] /\ d_episode_video_pre st'' = BufList [])) /\
  (forall cfg path now st action st' files tr,
     ac_episode_saving_path cfg = Some path ->
     atari_step asim_step asim_game_over asim_image cfg now st action = Ok (st', files, tr) ->
     done tr = true ->
     (exists pv,
        atari_pre_video cfg (buf_frames (a_episode_video_pre st')) = Ok pv /\
        files = [write_video path now (a_episode_score st') false (atari_fps cfg)
                   (buf_frames (a_episode_video st'));
                 write_video path now (a_episode_score st') true (atari_fps cfg) pv]) /\
     a_episode_video st' = BufStacked (buf_frames (a_episode_video st')) /\
     buf_frames (a_episode_video st')
       = buf_frames (a_episode_video st) ++ [asim_image (a_env st')] /\
     a_episode_video_pre st' = BufStacked (buf_frames (a_episode_video_pre st')) /\
     length (buf_frames (a_episode_video_pre st'))
       = S (length (buf_frames (a_episode_video_pre st))) /\
     (forall st'' tr', atari_reset asim_reset asim_game_over cfg st' = Ok (st'', tr') ->
        a_episode_video st'' = BufList [] /\ a_episode_video_pre st'' = BufList [])) /\
  (forall cfg path st0 st1 tr0 raw pre st now action st' files tr,
     (forall s a, hwc_ok (obs_px (snd (sim_step s a)))) ->
     dc_episode_saving_path cfg = Some path ->
     dmc_reset sim_reset cfg st0 = (st1, tr0) ->
     dmc_recorded sim_step sim_render cfg st1 raw pre st ->
     dmc_step sim_step sim_render cfg now st action = Ok (st', files, tr) ->
     let a := flatten (tclip dmc_clip_low dmc_clip_high action) in
     existsb obs_done (sim_trajectory sim_step (dc_action_repeat cfg) a (d_env st)) = true ->
     files = [write_video path now (d_episode_score st') false dmc_fps
                (raw ++ map (sim_render (dc_camera_id cfg))
                              (sim_states sim_step (dc_action_repeat cfg) a (d_env st)));
              write_video path now (d_episode_score st') true dmc_fps
                (pre ++ map obs_px (sim_trajectory sim_step (dc_action_repeat cfg) a (d_env st)))]) /\
  (forall cfg path st0 st1 tr0 raw pre st now action st' files tr,
     ac_episode_saving_path cfg = Some path ->
     atari_reset asim_reset asim_game_over cfg st0 = Ok (st1, tr0) ->
     atari_recorded asim_step asim_game_over asim_image cfg st1 raw pre st ->
     atari_step asim_step asim_game_over asim_image cfg now st action = Ok (st', files, tr) ->
     done tr = true ->
     exists a o r pv,
       item action = Ok a /\ asim_step (a_env st) a = (a_env st', (o, r, true)) /\
       atari_pre_video cfg (pre ++ [o]) = Ok pv /\
       files = [write_video path now (a_episode_score st') false (atari_fps cfg)
                  (raw ++ [asim_image (a_env st')]);
                write_video path now (a_episode_score st') true (atari_fps cfg) pv]).
Proof.
  refine (conj _ (conj _ (conj _ _))).
  - intros cfg path now st action st' files tr Hp H Hd.
    destruct (dmc_step_inv _ _ _ _ _ _ _ H)
      as (_ & env' & vid & pre & rew & dn & obs & R & _ & _ & _ & _ & _ & Hsave).
    destruct (dmc_repeat_spec _ _ _ _ _ _ _ _ _ _ _ _ _ _ _ R) as (_ & Hdn & _).
    rewrite fold_orb_existsb, Hd in Hdn. simpl in Hdn. subst dn.
    rewrite Hp in Hsave. simpl in Hsave.
    destruct Hsave as (Hv & Hq & Hv' & Hq' & Hf).
    destruct (buf_stack_frames _ _ Hv) as [_ Hne].
    destruct (buf_stack_frames _ _ Hq) as [_ Hne'].
    refine (conj Hf (conj Hv' (conj Hne (conj Hq' (conj Hne' _))))).
    intros st'' tr' Hr. unfold dmc_reset in Hr.
    destruct (sim_reset (d_env st')). rewrite Hp in Hr.
    inversion Hr. auto.
  - intros cfg path now st action st' files tr Hp H Hd.
    destruct (atari_step_inv _ _ _ _ _ _ _ H)
      as (a & o & r & d & s & _ & _ & _ & _ & _ & Htr & Hsave).
    assert (d = true) as -> by (rewrite Htr in Hd; exact Hd).
    rewrite Hp in Hsave.
    destruct Hsave as (pv & Hpv & Hv & Hq & Hfv & Hfq & Hf).
    split; [exists pv; auto|].
    refine (conj Hv (conj Hfv (conj Hq (conj _ _)))).
    + rewrite Hfq, length_app. simpl. lia.
    + intros st'' tr' Hr.
      destruct (atari_reset_inv _ _ _ _ Hr) as (? & ? & ? & ? & _ & _ & _ & Hb & _).
      apply Hb. congruence.
  - intros cfg path st0 st1 tr0 raw pre st now action st' files tr Hok Hp Hr Hrec H a Hd.
    assert (Hb1 : d_episode_video st1 = BufList [] /\ d_episode_video_pre st1 = BufList []).
    { unfold dmc_reset in Hr. destruct (sim_reset (d_env st0)). rewrite Hp in Hr.
      inversion Hr. auto. }
    destruct (dmc_recorded_frames _ _ _ _ _ _ Hok Hp Hrec) as [Hv1 Hq1].
    destruct Hb1 as [Hb1 Hb1']. rewrite Hb1 in Hv1. rewrite Hb1' in Hq1.
    destruct (dmc_step_recording _ _ _ _ _ _ _ _ Hok Hp H) as [Hv Hq].
    fold a in Hv, Hq. rewrite Hv1 in Hv. rewrite Hq1 in Hq.
    destruct (dmc_step_inv _ _ _ _ _ _ _ H)
      as (_ & env' & vid & pre' & rew & dn & obs & R & _ & _ & _ & _ & _ & Hsave).
    destruct (dmc_repeat_spec _ _ _ _ _ _ _ _ _ _ _ _ _ _ _ R) as (_ & Hdn & _).
    fold a in Hdn. rewrite fold_orb_existsb, Hd in Hdn. simpl in Hdn. subst dn.
    rewrite Hp in Hsave. simpl in Hsave.
    destruct Hsave as (_ & _ & _ & _ & Hf).
    rewrite Hf, Hv, Hq. reflexivity.
  - intros cfg path st0 st1 tr0 raw pre st now action st' files tr Hp Hr Hrec H Hd.
    destruct (atari_reset_inv _ _ _ _ Hr) as (? & ? & ? & ? & _ & _ & _ & Hb & _).
    destruct (Hb ltac:(congruence)) as [Hb1 Hb1'].
    destruct (atari_recorded_frames _ _ _ _ _ _ Hp Hrec) as [Hv1 Hq1].
    rewrite Hb1 in Hv1. rewrite Hb1' in Hq1.
    destruct (atari_step_inv _ _ _ _ _ _ _ H)
      as (a & o & r & d & s & Hi & Hs & _ & _ & _ & Htr & Hsave).
    assert (d = true) as -> by (rewrite Htr in Hd; exact Hd).
    rewrite Hp in Hsave.
    destruct Hsave as (pv & Hpv & _ & _ & Hfv & Hfq & Hf).
    exists a, o, r, pv. split; [exact Hi|]. split; [exact Hs|].
    rewrite Hfq, Hq1 in Hpv. rewrite Hfv, Hv1 in Hf. split; [exact Hpv|exact Hf].
Qed.

(** ** C10 *)

(** Claim C10: the continuous-control [obs_space()] declares 3 channels
    whatever [history_frames], while the states returned by [reset()] and
    by [step] (from reachable states) have [3 * history_frames] channels;
    for [history_frames > 1] the two differ. The simulator renders RGB
    frames. *)
Theorem dmc_obs_space_mismatch cfg :
  (forall s, last_dim (snd (sim_reset s)) = 3) ->
  (forall s a, last_dim (obs_px (snd (sim_step s a))) = 3) ->
  1 <= dc_history_frames cfg ->
  obs_space_channels (dmc_obs_space cfg) = 3 /\
  (forall st st' tr, dmc_reset sim_reset cfg st = (st', tr) ->
     length (state tr) = 3 * dc_history_frames cfg) /\
  (forall st now action st' files tr,
     dmc_reachable sim_reset sim_step sim_render cfg st ->
     dmc_step sim_step sim_render cfg now st action = Ok (st', files, tr) ->
     length (state tr) = 3 * dc_history_frames cfg) /\
  (1 < dc_history_frames cfg ->
   forall st st' tr, dmc_reset sim_reset cfg st = (st', tr) ->
     obs_space_channels (dmc_obs_space cfg) <> length (state tr)).
Proof.
  intros Hr Hs H1.
  assert (Hreset : forall st st' tr, dmc_reset sim_reset cfg st = (st', tr) ->
                     length (state tr) = 3 * dc_history_frames cfg).
  { intros st st' tr H.
    pose proof (dmc_reachable_history _ _ Hr Hs H1 (dmc_reach_reset _ _ _ _ _ _ _ _ H))
      as [Hl _].
    unfold dmc_reset in H. destruct (sim_reset (d_env st)).
    destruct (dc_episode_saving_path cfg); inversion H; subst; simpl in *; lia. }
  split; [reflexivity|]. split; [exact Hreset|]. split.
  - intros st now action st' files tr Hreach H.
    destruct (dmc_reachable_history _ _ Hr Hs H1
                (dmc_reach_step _ _ _ _ _ _ _ _ _ _ _ Hreach H)) as [Hl _].
    destruct (dmc_step_inv _ _ _ _ _ _ _ H)
      as (_ & ? & ? & ? & ? & ? & ? & _ & _ & _ & _ & _ & -> & _).
    simpl. lia.
  - intros Hgt st st' tr H. rewrite (Hreset _ _ _ H). simpl. lia.
Qed.

(** How the Atari adapter computes [is_last]. *)
Lemma atari_is_last_rule cfg now st action st' files tr :
  atari_step asim_step asim_game_over asim_image cfg now st action = Ok (st', files, tr) ->
  is_last tr = if ac_terminal_on_life_loss cfg then asim_game_over (a_env st')
               else done tr.
Proof.
  intro H.
  destruct (atari_step_inv _ _ _ _ _ _ _ H)
    as (a & o & r & d & s & _ & _ & Hpp & _ & _ & Htr & _).
  destruct (atari_preprocess_inv _ _ _ _ _ _ _ _ _ Hpp) as (_ & _ & Hil & _).
  rewrite Htr at 2. simpl. exact Hil.
Qed.

(** The continuous-control adapter sets [is_last] to [done]. *)
Lemma dmc_is_last_rule cfg now st action st' files tr :
  dmc_step sim_step sim_render cfg now st action = Ok (st', files, tr) ->
  is_last tr = done tr.
Proof.
  intro H.
  destruct (dmc_step_loop _ _ _ _ _ _ _ H) as (_ & _ & _ & _ & -> & -> & _).
  reflexivity.
Qed.

End Proofs.

(** ** C8 *)

(** Claim C8: with [terminal_on_life_loss] disabled, and for the
    continuous-control adapter, [is_last] equals [done]; with it enabled,
    the Atari [is_last] is [ale.game_over()], and a reachable step returns
    [done = true] with [is_last = false] (a life is lost, the game goes
    on). *)
Theorem life_loss_is_last :
  (forall (ASim : Type) asim_step asim_game_over asim_image cfg now
          (st : atari ASim) action st' files tr,
     ac_terminal_on_life_loss cfg = false ->
     atari_step asim_step asim_game_over asim_image cfg now st action = Ok (st', files, tr) ->
     is_last tr = done tr) /\
  (forall (Sim : Type) sim_step sim_render cfg now (st : dmc Sim) action st' files tr,
     dmc_step sim_step sim_render cfg now st action = Ok (st', files, tr) ->
     is_last tr = done tr) /\
  (forall (ASim : Type) asim_step asim_game_over asim_image cfg now
          (st : atari ASim) action st' files tr,
     ac_terminal_on_life_loss cfg = true ->
     atari_step asim_step asim_game_over asim_image cfg now st action = Ok (st', files, tr) ->
     is_last tr = asim_game_over (a_env st')) /\
  (exists st now action st' files tr,
     atari_reachable Toy.asim_reset Toy.asim_step Toy.asim_game_over Toy.asim_image
       (Toy.acfg true None) st /\
     Toy.astep true None now st action = Ok (st', files, tr) /\
     done tr = true /\ is_last tr = false).
Proof.
  split; [|split; [|split]].
  - intros ASim asim_step asim_game_over asim_image cfg now st action st' files tr Htol H.
    rewrite (atari_is_last_rule _ _ _ _ _ _ _ _ _ _ _ H), Htol. reflexivity.
  - intros Sim sim_step sim_render cfg now st action st' files tr H.
    exact (dmc_is_last_rule _ _ _ _ _ _ _ _ _ _ H).
  - intros ASim asim_step asim_game_over asim_image cfg now st action st' files tr Htol H.
    rewrite (atari_is_last_rule _ _ _ _ _ _ _ _ _ _ _ H), Htol. reflexivity.
  - destruct (Toy.areset true None Toy.ainit) as [[st tr0]|e] eqn:Hr;
      [|vm_compute in Hr; discriminate Hr].
    destruct (Toy.astep true None "t" st (TScalar 1)) as [[[st' files] tr]|e] eqn:Hs.
    + exists st, "t"%string, (TScalar 1), st', files, tr.
      split; [exact (atari_reach_reset _ _ _ _ _ _ _ _ _ Hr)|].
      split; [exact Hs|].
      unfold Toy.areset in Hr. vm_compute in Hr. injection Hr as <- <-.
      vm_compute in Hs. injection Hs as <- <- <-. split; reflexivity.
    + unfold Toy.areset in Hr. vm_compute in Hr. injection Hr as <- <-.
      vm_compute in Hs. discriminate Hs.
Qed.

(** ** C4 *)

(** Claim C4 (code defect): [collate] means to return the bare stacked
    array for a one-entry params structure ("Convert single elt struct to
    item for easy unpack"). For a list or a tuple it does; for a one-entry
    dict, [collates[0]] looks up the key [0] in the dict of results, so for
    any name other than the integer 0 it raises a KeyError. *)
Theorem collate_single_entry name params samples t :
  pykey_eqb (KInt 0) name = false ->
  collate_one samples params = Ok t ->
  collate samples (CDict [(name, params)]) = Err KeyError /\
  collate samples (CList [params]) = Ok (PTensor t) /\
  collate samples (CTuple [params]) = Ok (PTensor t).
Proof.
  intros Hk Hc. unfold collate. simpl. rewrite Hc. simpl.
  destruct name as [[|p|p]|str]; simpl in Hk |- *; try discriminate Hk;
    repeat split; reflexivity.
Qed.

(** ** Witnesses: the theorems applied to the concrete simulators *)

(** Run a concrete step and name its result. *)
Ltac run_ok e st' files tr Hrun :=
  destruct e as [[[st' files] tr]|err] eqn:Hrun;
  [|vm_compute in Hrun; discriminate Hrun].

Lemma dmc_step_done_internal_witness :
  exists st' files tr,
    dmc_step Toy.dsim_step Toy.dsim_render (Toy.dcfg None) "t"%string (Toy.dstart None)
      (TArr [TScalar 0]) = Ok (st', files, tr) /\
    done tr = false /\ is_last tr = false.
Proof.
  run_ok (dmc_step Toy.dsim_step Toy.dsim_render (Toy.dcfg None) "t"%string (Toy.dstart None)
            (TArr [TScalar 0])) st' files tr Hrun.
  exists st', files, tr. split; [reflexivity|].
  destruct (dmc_step_done_internal nat Toy.dsim_step Toy.dsim_render (Toy.dcfg None) "t"%string
              (Toy.dstart None) (TArr [TScalar 0]) st' files tr Hrun) as (_ & Hd & Hl & _).
  split; [exact Hd | exact Hl].
Defined.

Lemma dmc_step_reward_sum_witness :
  exists st' files tr,
    dmc_step Toy.dsim_step Toy.dsim_render (Toy.dcfg None) "t"%string (Toy.dstart None)
      (TArr [TScalar 0]) = Ok (st', files, tr) /\
    reward tr = running_sum [1 # 2; 1 # 2].
Proof.
  run_ok (dmc_step Toy.dsim_step Toy.dsim_render (Toy.dcfg None) "t"%string (Toy.dstart None)
            (TArr [TScalar 0])) st' files tr Hrun.
  exists st', files, tr. split; [reflexivity|].
  destruct (dmc_step_reward_sum nat Toy.dsim_step Toy.dsim_render (Toy.dcfg None) "t"%string
              (Toy.dstart None) (TArr [TScalar 0]) st' files tr Hrun) as (_ & Hr).
  rewrite Hr. reflexivity.
Defined.

Lemma reset_fills_history_witness :
  (forall k, k < 2 ->
     frame_slice 3 k (state (snd (dmc_reset Toy.dsim_reset (Toy.dcfg None) Toy.dinit)))
     = [[[0]]; [[0]]; [[0]]]%Z) /\
  (exists st' tr, Toy.areset false None Toy.ainit = Ok (st', tr) /\
     is_first tr = true /\ length (state tr) = 2).
Proof.
  destruct (reset_fills_history nat Toy.dsim_reset nat Toy.asim_reset Toy.asim_game_over)
    as [Hd Ha].
  split.
  - destruct (dmc_reset Toy.dsim_reset (Toy.dcfg None) Toy.dinit) as [st' tr] eqn:Hr.
    destruct (Hd _ _ _ _ Hr) as (_ & _ & _ & _ & _ & _ & Hs).
    exact Hs.
  - destruct (Toy.areset false None Toy.ainit) as [[st' tr]|e] eqn:Hr;
      [|vm_compute in Hr; discriminate Hr].
    exists st', tr. split; [reflexivity|].
    destruct (Ha (Toy.acfg false None) Toy.ainit st' tr ltac:(simpl; lia) Hr)
      as (obs & x & y & z & Hpp & Hf & _ & _ & _ & _ & Hl & _).
    split; [exact Hf|]. rewrite Hl.
    vm_compute in Hpp. injection Hpp as <- _ _ _. reflexivity.
Defined.

Lemma history_sliding_window_witness :
  (exists st' files tr,
     dmc_step Toy.dsim_step Toy.dsim_render (Toy.dcfg None) "t"%string (Toy.dstart None)
       (TArr [TScalar 0]) = Ok (st', files, tr) /\
     firstn 3 (d_history st') = lastn 3 (d_history (Toy.dstart None))) /\
  (exists st' files tr,
     Toy.astep false None "t"%string (Toy.astart false None) (TScalar 1) = Ok (st', files, tr) /\
     firstn 1 (a_history st') = lastn 1 (a_history (Toy.astart false None))).
Proof.
  destruct (history_sliding_window nat Toy.dsim_reset Toy.dsim_step Toy.dsim_render
              nat Toy.asim_reset Toy.asim_step Toy.asim_game_over Toy.asim_image)
    as [Hd Ha].
  split.
  - assert (Hreach : dmc_reachable Toy.dsim_reset Toy.dsim_step Toy.dsim_render
                       (Toy.dcfg None) (Toy.dstart None)).
    { unfold Toy.dstart.
      destruct (dmc_reset Toy.dsim_reset (Toy.dcfg None) Toy.dinit) as [s0 tr0] eqn:Hr0.
      eapply dmc_reach_reset. exact Hr0. }
    run_ok (dmc_step Toy.dsim_step Toy.dsim_render (Toy.dcfg None) "t"%string (Toy.dstart None)
              (TArr [TScalar 0])) st' files tr Hrun.
    exists st', files, tr. split; [reflexivity|].
    pose proof (Hd (Toy.dcfg None) "t"%string (Toy.dstart None) (TArr [TScalar 0]) st' files tr
                  (fun s => eq_refl) (fun s a => eq_refl) ltac:(simpl; lia) Hreach Hrun)
      as Hw.
    cbv zeta in Hw. destruct Hw as (_ & _ & _ & Hf & _). exact Hf.
  - assert (Hreach : atari_reachable Toy.asim_reset Toy.asim_step Toy.asim_game_over
                       Toy.asim_image (Toy.acfg false None) (Toy.astart false None)).
    { unfold Toy.astart.
      destruct (Toy.areset false None Toy.ainit) as [[s0 tr0]|e] eqn:Hr0;
        [|vm_compute in Hr0; discriminate Hr0].
      eapply atari_reach_reset. exact Hr0. }
    run_ok (Toy.astep false None "t"%string (Toy.astart false None) (TScalar 1)) st' files tr Hrun.
    exists st', files, tr. split; [reflexivity|].
    pose proof (Ha (Toy.acfg false None) "t"%string (Toy.astart false None) (TScalar 1) st' files tr
                  (fun s => I) (fun s a => I) ltac:(simpl; lia) Hreach Hrun) as Hw.
    cbv zeta in Hw. destruct Hw as (_ & Hf & _). exact Hf.
Defined.

Lemma step_action_validation_witness :
  dmc_step Toy.dsim_step Toy.dsim_render (Toy.dcfg None) "t"%string (Toy.dstart None)
    (TArr [TScalar 0; TScalar 0]) = Err AssertionError /\
  dmc_step Toy.dsim_step Toy.dsim_render (Toy.dcfg None) "t"%string (Toy.dstart None)
    (TArr [TScalar 3])
  = dmc_step_list Toy.dsim_step Toy.dsim_render (Toy.dcfg None) "t"%string (Toy.dstart None)
      (map (clip_q dmc_clip_low dmc_clip_high) (flatten (TArr [TScalar 3]))) /\
  Toy.astep false None "t"%string (Toy.astart false None) (TArr [TScalar 1; TScalar 2])
    = Err RuntimeError /\
  Toy.astep false None "t"%string (Toy.astart false None) (TArr [TScalar 7])
  = atari_step_scalar Toy.asim_step Toy.asim_game_over Toy.asim_image
      (Toy.acfg false None) "t"%string (Toy.astart false None) 7.
Proof.
  destruct (step_action_validation nat Toy.dsim_step Toy.dsim_render
              nat Toy.asim_step Toy.asim_game_over Toy.asim_image)
    as (H1 & H2 & H3 & H4).
  refine (conj _ (conj _ (conj _ _))).
  - apply H1. intro Hs. vm_compute in Hs. discriminate Hs.
  - apply (H2 (Toy.dcfg None) "t"%string (Toy.dstart None) (TArr [TScalar 3]) eq_refl).
  - apply H3. intro Hl. vm_compute in Hl. discriminate Hl.
  - apply H4. reflexivity.
Defined.

Lemma atari_step_rejects_sample_witness :
  Toy.astep false None "t"%string (Toy.astart false None) (atari_sample (Toy.acfg false None) 0)
    = Err RuntimeError /\
  (exists r, Toy.astep false None "t"%string (Toy.astart false None) (TScalar 1) = Ok r /\
     length (flatten (TScalar 1)) = 1).
Proof.
  destruct (atari_step_rejects_sample nat Toy.asim_step Toy.asim_game_over Toy.asim_image)
    as [H1 H2].
  split.
  - destruct (H1 (Toy.acfg false None) 0 "t"%string (Toy.astart false None)
                ltac:(simpl; lia) ltac:(simpl; lia)) as (_ & _ & Hs).
    exact Hs.
  - destruct (Toy.astep false None "t"%string (Toy.astart false None) (TScalar 1)) as [r|e] eqn:Hrun;
      [|vm_compute in Hrun; discriminate Hrun].
    exists r. split; [reflexivity|].
    exact (H2 _ _ _ _ _ Hrun).
Defined.

Lemma recording_flush_on_done_witness :
  (exists st' files tr,
     dmc_step Toy.dsim_step Toy.dsim_render (Toy.dcfg (Some "videos"%string)) "t"%string
       (Toy.dstart (Some "videos"%string)) (TArr [TScalar 0]) = Ok (st', files, tr) /\
     buf_frames (d_episode_video st') <> []) /\
  (exists st' files tr,
     Toy.astep true (Some "videos"%string) "t"%string (Toy.astart true (Some "videos"%string)) (TScalar 1)
       = Ok (st', files, tr) /\
     a_episode_video st' = BufStacked (buf_frames (a_episode_video st'))) /\
  (exists st1 f1 t1 st2 files tr,
     dmc_step Toy.dsim_step Toy.dsim_render Toy.dcfg1 "t"%string
       (fst (dmc_reset Toy.dsim_reset Toy.dcfg1 Toy.dinit)) (TArr [TScalar 0]) = Ok (st1, f1, t1) /\
     dmc_step Toy.dsim_step Toy.dsim_render Toy.dcfg1 "u"%string st1 (TArr [TScalar 0])
       = Ok (st2, files, tr) /\
     files = [write_video "videos" "u" (d_episode_score st2) false dmc_fps
                [[[[1]]]; [[[2]]]];
              write_video "videos" "u" (d_episode_score st2) true dmc_fps
                [[[[1; 0; 0]]]; [[[2; 0; 0]]]]]%string%Z) /\
  (exists st' files tr pv,
     Toy.astep true (Some "videos"%string) "t"%string (Toy.astart true (Some "videos"%string)) (TScalar 1)
       = Ok (st', files, tr) /\
     atari_pre_video (Toy.acfg true (Some "videos"%string)) [Gray [[2%Z]]] = Ok pv /\
     files = [write_video "videos" "t" (a_episode_score st') false
                (atari_fps (Toy.acfg true (Some "videos"%string))) [[[[2; 0; 0]]]]%Z;
              write_video "videos" "t" (a_episode_score st') true
                (atari_fps (Toy.acfg true (Some "videos"%string))) pv]%string).
Proof.
  destruct (recording_flush_on_done nat Toy.dsim_reset Toy.dsim_step Toy.dsim_render
              nat Toy.asim_reset Toy.asim_step Toy.asim_game_over Toy.asim_image)
    as (Hd & Ha & Hd3 & Ha4).
  refine (conj _ (conj _ (conj _ _))).
  - run_ok (dmc_step Toy.dsim_step Toy.dsim_render (Toy.dcfg (Some "videos"%string)) "t"%string
              (Toy.dstart (Some "videos"%string)) (TArr [TScalar 0])) st' files tr Hrun.
    exists st', files, tr. split; [reflexivity|].
    destruct (Hd (Toy.dcfg (Some "videos"%string)) "videos"%string "t"%string (Toy.dstart (Some "videos"%string))
                (TArr [TScalar 0]) st' files tr eq_refl Hrun ltac:(vm_compute; reflexivity))
      as (_ & _ & Hne & _).
    exact Hne.
  - run_ok (Toy.astep true (Some "videos"%string) "t"%string (Toy.astart true (Some "videos"%string)) (TScalar 1))
      st' files tr Hrun.
    exists st', files, tr. split; [reflexivity|].
    assert (Hdone : done tr = true) by (vm_compute in Hrun; injection Hrun as _ _ <-; reflexivity).
    destruct (Ha (Toy.acfg true (Some "videos"%string)) "videos"%string "t"%string (Toy.astart true (Some "videos"%string))
                (TScalar 1) st' files tr eq_refl Hrun Hdone) as (_ & Hs & _).
    exact Hs.
  - run_ok (dmc_step Toy.dsim_step Toy.dsim_render Toy.dcfg1 "t"%string
              (fst (dmc_reset Toy.dsim_reset Toy.dcfg1 Toy.dinit)) (TArr [TScalar 0])) st1 f1 t1 Hrun1.
    pose proof Hrun1 as E1. vm_compute in E1. injection E1 as E1 _ _. subst st1.
    match type of Hrun1 with
    | _ = Ok (?s1, _, _) =>
        run_ok (dmc_step Toy.dsim_step Toy.dsim_render Toy.dcfg1 "u"%string s1 (TArr [TScalar 0]))
          st2 files tr Hrun2
    end.
    eexists; exists f1, t1, st2, files, tr. split; [reflexivity|]. split; [exact Hrun2|].
    assert (Hhwc : forall s a, hwc_ok (obs_px (snd (Toy.dsim_step s a)))).
    { intros s a. split; [simpl; lia | repeat constructor]. }
    pose proof (Hd3 Toy.dcfg1 "videos"%string Toy.dinit
                  (fst (dmc_reset Toy.dsim_reset Toy.dcfg1 Toy.dinit))
                  (snd (dmc_reset Toy.dsim_reset Toy.dcfg1 Toy.dinit))
                  _ _ _ "u"%string (TArr [TScalar 0]) st2 files tr Hhwc eq_refl eq_refl
                  (dmc_recorded_cons _ _ _ _ "t"%string (TArr [TScalar 0]) _ f1 t1 [] [] _ Hrun1
                     (dmc_recorded_nil _ _ _ _))
                  Hrun2 ltac:(vm_compute; reflexivity)) as Hf.
    rewrite Hf. vm_compute. reflexivity.
  - run_ok (Toy.astep true (Some "videos"%string) "t"%string (Toy.astart true (Some "videos"%string)) (TScalar 1))
      st' files tr Hrun.
    assert (Hdone : done tr = true) by (vm_compute in Hrun; injection Hrun as _ _ <-; reflexivity).
    destruct (Ha4 (Toy.acfg true (Some "videos"%string)) "videos"%string Toy.ainit
                (Toy.astart true (Some "videos"%string)) _ [] []
                (Toy.astart true (Some "videos"%string)) "t"%string (TScalar 1) st' files tr
                eq_refl eq_refl (atari_recorded_nil _ _ _ _ _) Hrun Hdone)
      as (a & o & r & pv & Hi & Hs & Hpv & Hf).
    exists st', files, tr, pv. split; [reflexivity|].
    injection Hi as <-. vm_compute in Hs. injection Hs as Henv <- _.
    change (2%nat = a_env st') in Henv.
    rewrite <- Henv in Hf. split; [exact Hpv|exact Hf].
Defined.

Lemma dmc_obs_space_mismatch_witness :
  obs_space_channels (dmc_obs_space (Toy.dcfg None))
  <> length (state (snd (dmc_reset Toy.dsim_reset (Toy.dcfg None) Toy.dinit))).
Proof.
  destruct (dmc_obs_space_mismatch nat Toy.dsim_reset Toy.dsim_step Toy.dsim_render
              (Toy.dcfg None) (fun s => eq_refl) (fun s a => eq_refl) ltac:(simpl; lia))
    as (_ & _ & _ & Hne).
  destruct (dmc_reset Toy.dsim_reset (Toy.dcfg None) Toy.dinit) as [st' tr] eqn:Hr.
  exact (Hne ltac:(simpl; lia) Toy.dinit st' tr Hr).
Defined.

Lemma life_loss_is_last_witness :
  (exists st' files tr,
     Toy.astep false None "t"%string (Toy.astart false None) (TScalar 1) = Ok (st', files, tr) /\
     is_last tr = done tr) /\
  (exists st' files tr,
     dmc_step Toy.dsim_step Toy.dsim_render (Toy.dcfg None) "t"%string (Toy.dstart None)
       (TArr [TScalar 0]) = Ok (st', files, tr) /\
     is_last tr = done tr) /\
  (exists st' files tr,
     Toy.astep true None "t"%string (Toy.astart true None) (TScalar 1) = Ok (st', files, tr) /\
     is_last tr = Toy.asim_game_over (a_env st')).
Proof.
  destruct life_loss_is_last as (H1 & H2 & H3 & _).
  refine (conj _ (conj _ _)).
  - run_ok (Toy.astep false None "t"%string (Toy.astart false None) (TScalar 1)) st' files tr Hrun.
    exists st', files, tr. split; [reflexivity|].
    exact (H1 nat Toy.asim_step Toy.asim_game_over Toy.asim_image (Toy.acfg false None)
             _ _ _ _ _ _ eq_refl Hrun).
  - run_ok (dmc_step Toy.dsim_step Toy.dsim_render (Toy.dcfg None) "t"%string (Toy.dstart None)
              (TArr [TScalar 0])) st' files tr Hrun.
    exists st', files, tr. split; [reflexivity|].
    exact (H2 _ _ _ _ _ _ _ _ _ _ Hrun).
  - run_ok (Toy.astep true None "t"%string (Toy.astart true None) (TScalar 1)) st' files tr Hrun.
    exists st', files, tr. split; [reflexivity|].
    exact (H3 nat Toy.asim_step Toy.asim_game_over Toy.asim_image (Toy.acfg true None)
             _ _ _ _ _ _ eq_refl Hrun).
Defined.

Lemma collate_single_entry_witness :
  collate [[TScalar 1; TScalar 2]; [TScalar 3; TScalar 4]]
    (CDict [(KStr "x"%string, [("axis"%string, 0%Z)])]) = Err KeyError /\
  collate [[TScalar 1; TScalar 2]; [TScalar 3; TScalar 4]] (CList [[("axis"%string, 0%Z)]])
  = Ok (PTensor (TArr [TScalar 1; TScalar 3])).
Proof.
  destruct (collate_single_entry (KStr "x"%string) [("axis"%string, 0%Z)]
              [[TScalar 1; TScalar 2]; [TScalar 3; TScalar 4]] (TArr [TScalar 1; TScalar 3])
              eq_refl ltac:(vm_compute; reflexivity)) as (Hd & Hl & _).
  split; [exact Hd | exact Hl].
Defined.

(** ** Counterexamples *)

(** A step of the continuous-control adapter whose second simulator
    sub-step reports [last()]: the returned [done] is still false. *)
Lemma dmc_done_counterexample :
  exists st' files tr,
    dmc_step Toy.dsim_step Toy.dsim_render (Toy.dcfg None) "t"%string (Toy.dstart None)
      (TArr [TScalar 0]) = Ok (st', files, tr) /\
    existsb obs_done
      (sim_trajectory Toy.dsim_step (dc_action_repeat (Toy.dcfg None))
         (flatten (tclip dmc_clip_low dmc_clip_high (TArr [TScalar 0])))
         (d_env (Toy.dstart None))) = true /\
    done tr = false.
Proof.
  run_ok (dmc_step Toy.dsim_step Toy.dsim_render (Toy.dcfg None) "t"%string (Toy.dstart None)
            (TArr [TScalar 0])) st' files tr Hrun.
  exists st', files, tr. split; [reflexivity|].
  split; [vm_compute; reflexivity|].
  vm_compute in Hrun. injection Hrun as _ _ <-. reflexivity.
Defined.

(** The Atari adapter accepts, without any error, an action of shape
    [(1, 1)] holding the value 7 for a game with 4 actions, although its
    own [sample()] has shape [(4,)]. *)
Lemma atari_action_counterexample :
  ac_num_actions (Toy.acfg false None) = 4 /\
  shape (TArr [TArr [TScalar 7]]) <> shape (atari_sample (Toy.acfg false None) 0) /\
  exists r, Toy.astep false None "t"%string (Toy.astart false None) (TArr [TArr [TScalar 7]])
            = Ok r.
Proof.
  refine (conj eq_refl (conj _ _)).
  - intro Hs. vm_compute in Hs. discriminate Hs.
  - destruct (Toy.astep false None "t"%string (Toy.astart false None)
                (TArr [TArr [TScalar 7]])) as [r|e] eqn:Hrun;
      [|vm_compute in Hrun; discriminate Hrun].
    exists r. reflexivity.
Defined.

(** With recording enabled, the step that ends an episode writes its two
    videos, and afterwards the recording buffers are not empty: they hold
    the stacked frames. *)
Lemma recording_buffers_counterexample :
  (exists st' files tr,
     dmc_step Toy.dsim_step Toy.dsim_render (Toy.dcfg (Some "videos"%string)) "t"%string
       (Toy.dstart (Some "videos"%string)) (TArr [TScalar 0]) = Ok (st', files, tr) /\
     length files = 2 /\ buf_frames (d_episode_video st') <> [] /\
     buf_frames (d_episode_video_pre st') <> []) /\
  (exists st' files tr,
     Toy.astep true (Some "videos"%string) "t"%string (Toy.astart true (Some "videos"%string))
       (TScalar 1) = Ok (st', files, tr) /\
     length files = 2 /\ buf_frames (a_episode_video st') <> [] /\
     buf_frames (a_episode_video_pre st') <> []).
Proof.
  split.
  - run_ok (dmc_step Toy.dsim_step Toy.dsim_render (Toy.dcfg (Some "videos"%string)) "t"%string
              (Toy.dstart (Some "videos"%string)) (TArr [TScalar 0])) st' files tr Hrun.
    exists st', files, tr. split; [reflexivity|].
    vm_compute in Hrun. injection Hrun as <- <- <-.
    refine (conj eq_refl (conj _ _)); intro Hc; vm_compute in Hc; discriminate Hc.
  - run_ok (Toy.astep true (Some "videos"%string) "t"%string (Toy.astart true (Some "videos"%string))
              (TScalar 1)) st' files tr Hrun.
    exists st', files, tr. split; [reflexivity|].
    vm_compute in Hrun. injection Hrun as <- <- <-.
    refine (conj eq_refl (conj _ _)); intro Hc; vm_compute in Hc; discriminate Hc.
Defined.

(** ** Further properties of the adapters and of collate *)

Section Extras.

Variable Sim : Type.
Variable sim_reset : Sim -> Sim * arr3.
Variable sim_step : Sim -> list Q -> Sim * (arr3 * Q * bool).
Variable sim_render : nat -> Sim -> arr3.

Variable ASim : Type.
Variable asim_reset : ASim -> ASim * aobs.
Variable asim_step : ASim -> Q -> ASim * (aobs * Q * bool).
Variable asim_game_over : ASim -> bool.
Variable asim_image : ASim -> arr3.

Lemma clip_q_id (lo hi x : Q) : (lo <= x <= hi)%Q -> clip_q lo hi x = x.
Proof.
  intros [H1 H2]. unfold clip_q, Qmax, Qmin, GenericMinMax.gmax, GenericMinMax.gmin.
  destruct (Qcompare x lo) eqn:E1.
  - destruct (Qcompare x hi) eqn:E2; try reflexivity.
    exfalso. apply Qgt_alt in E2. apply (Qlt_not_le _ _ E2 H2).
  - exfalso. apply Qlt_alt in E1. apply (Qlt_not_le _ _ E1 H1).
  - destruct (Qcompare x hi) eqn:E2; try reflexivity.
    exfalso. apply Qgt_alt in E2. apply (Qlt_not_le _ _ E2 H2).
Qed.

Lemma flatten_scalars (l : list Q) : flatten (TArr (map TScalar l)) = l.
Proof. induction l as [|x l IH]; simpl; [reflexivity|]. f_equal. exact IH. Qed.

(** The continuous-control [sample()]: draws in [[clip_low, clip_high]]
    give an action of shape [(num_actions,)], which passes the assertion of
    [step], and the clipping leaves it unchanged. *)
Theorem dmc_sample_step cfg u now st :
  dc_num_actions cfg <= length u ->
  Forall (fun q => dmc_clip_low <= q <= dmc_clip_high)%Q u ->
  shape (dmc_sample cfg u) = [dc_num_actions cfg] /\
  dmc_step sim_step sim_render cfg now st (dmc_sample cfg u)
  = dmc_step_list sim_step sim_render cfg now st (firstn (dc_num_actions cfg) u).
Proof.
  intros Hlen Hu.
  assert (Hs : shape (dmc_sample cfg u) = [dc_num_actions cfg]).
  { unfold dmc_sample. simpl. rewrite length_map, length_firstn.
    destruct (firstn (dc_num_actions cfg) u); f_equal; lia. }
  split; [exact Hs|].
  unfold dmc_step. rewrite Hs.
  destruct (list_eq_dec Nat.eq_dec _ _) as [_|Hn]; [|congruence].
  f_equal. rewrite flatten_tclip. unfold dmc_sample. rewrite flatten_scalars.
  transitivity (map (fun q => q) (firstn (dc_num_actions cfg) u)); [|apply map_id].
  apply map_ext_in. intros q Hq. apply clip_q_id.
  rewrite Forall_forall in Hu. apply Hu.
  rewrite <- (firstn_skipn (dc_num_actions cfg) u). apply in_or_app. left. exact Hq.
Qed.


(** With [action_repeat = 0] the loop of [step] never runs, [obs_pixels]
    is unbound, and [step] raises (UnboundLocalError, a NameError). *)
Theorem dmc_step_zero_repeat cfg now st action :
  dc_action_repeat cfg = 0 -> shape action = [dc_num_actions cfg] ->
  dmc_step sim_step sim_render cfg now st action = Err NameError.
Proof.
  intros H0 Hs. unfold dmc_step.
  destruct (list_eq_dec Nat.eq_dec _ _) as [_|Hn]; [|contradiction].
  unfold dmc_step_list. rewrite H0. simpl.
  destruct (dc_episode_saving_path cfg); reflexivity.
Qed.

(** With recording enabled, once a step has saved the videos the buffers
    are tensors: the next [step] before a [reset()] raises an
    AttributeError ([append] on a tensor), for both adapters. *)
Theorem step_after_save_fails :
  (forall cfg path now st action st' files tr now' action',
     dc_episode_saving_path cfg = Some path ->
     dmc_step sim_step sim_render cfg now st action = Ok (st', files, tr) ->
     files <> [] ->
     1 <= dc_action_repeat cfg ->
     shape action' = [dc_num_actions cfg] ->
     dmc_step sim_step sim_render cfg now' st' action' = Err AttributeError) /\
  (forall cfg path now st action st' files tr now' action' a',
     ac_episode_saving_path cfg = Some path ->
     atari_step asim_step asim_game_over asim_image cfg now st action = Ok (st', files, tr) ->
     files <> [] ->
     item action' = Ok a' ->
     atari_step asim_step asim_game_over asim_image cfg now' st' action' = Err AttributeError).
Proof.
  split.
  - intros cfg path now st action st' files tr now' action' Hp H Hf Hr Hs.
    destruct (dmc_step_inv Sim sim_step sim_render _ _ _ _ _ _ _ H)
      as (_ & env' & vid & pre & rew & dn & obs & _ & _ & _ & _ & _ & _ & Hsave).
    rewrite Hp in Hsave.
    destruct dn; [|destruct Hsave as (_ & _ & Hf'); contradiction].
    destruct Hsave as (_ & _ & Hvid & _).
    unfold dmc_step. destruct (list_eq_dec Nat.eq_dec _ _) as [_|Hn]; [|contradiction].
    unfold dmc_step_list.
    destruct (dc_action_repeat cfg) as [|n]; [lia|]. simpl.
    destruct (sim_step (d_env st') _) as [env1 [[px r] d]].
    rewrite Hp, Hvid. reflexivity.
  - intros cfg path now st action st' files tr now' action' a' Hp H Hf Hi.
    destruct (atari_step_inv ASim asim_step asim_game_over asim_image _ _ _ _ _ _ _ H)
      as (a & o & r & d & s & _ & _ & _ & _ & _ & _ & Hsave).
    rewrite Hp in Hsave.
    destruct d; [|contradiction].
    destruct Hsave as (pv & _ & Hvid & _).
    unfold atari_step. rewrite Hi. simpl. unfold atari_step_scalar.
    destruct (asim_step (a_env st') a') as [env1 [[o1 r1] d1]].
    rewrite Hp, Hvid. reflexivity.
Qed.

Lemma dmc_repeat_nopath cfg n :
  dc_episode_saving_path cfg = None ->
  forall a env vid pre rew dn last env' vid' pre' rew' dn' last',
  dmc_repeat sim_step sim_render cfg n a env vid pre rew dn last
    = Ok (env', vid', pre', rew', dn', last') ->
  vid' = vid /\ pre' = pre.
Proof.
  intro Hp. induction n as [|n IH];
    intros a env vid pre rew dn last env' vid' pre' rew' dn' last' H; simpl in H.
  - inversion H; auto.
  - destruct (sim_step env a) as [env1 [[px r] d]]. rewrite Hp in H. simpl in H.
    exact (IH _ _ _ _ _ _ _ _ _ _ _ _ _ H).
Qed.

(** Without [episode_saving_path], [step] writes no video and leaves both
    recording buffers untouched, for both adapters. *)
Theorem step_without_recording :
  (forall cfg now st action st' files tr,
     dc_episode_saving_path cfg = None ->
     dmc_step sim_step sim_render cfg now st action = Ok (st', files, tr) ->
     files = [] /\ d_episode_video st' = d_episode_video st /\
     d_episode_video_pre st' = d_episode_video_pre st) /\
  (forall cfg now st action st' files tr,
     ac_episode_saving_path cfg = None ->
     atari_step asim_step asim_game_over asim_image cfg now st action = Ok (st', files, tr) ->
     files = [] /\ a_episode_video st' = a_episode_video st /\
     a_episode_video_pre st' = a_episode_video_pre st).
Proof.
  split.
  - intros cfg now st action st' files tr Hp H.
    destruct (dmc_step_inv Sim sim_step sim_render _ _ _ _ _ _ _ H)
      as (_ & env' & vid & pre & rew & dn & obs & R & _ & _ & _ & _ & _ & Hsave).
    rewrite Hp in Hsave. destruct (dmc_repeat_nopath _ _ Hp _ _ _ _ _ _ _ _ _ _ _ _ _ R).
    subst. destruct dn; destruct Hsave as (? & ? & ?); auto.
  - intros cfg now st action st' files tr Hp H.
    unfold atari_step in H. destruct (item action) as [a|e]; simpl in H; [|discriminate H].
    unfold atari_step_scalar in H.
    destruct (asim_step (a_env st) a) as [env' [[o r] d]].
    rewrite Hp in H. simpl in H.
    destruct d;
      (destruct (atari_preprocess asim_game_over cfg env' o r _)
         as [[[[s rw] dn] il]|e]; simpl in H; [|discriminate H]);
      inversion H; subst; auto.
Qed.

(** With recording enabled, a continuous-control step keeps the frames
    already recorded and appends, per sub-step, the render of the simulator
    after it ([get_obs()]) to the raw buffer and the simulator's (H, W, C)
    pixel frame to the preprocessed one ([permute(2, 0, 1)] then
    [permute(1, 2, 0)] gives it back); an Atari step appends the
    [_get_image()] frame and the wrapper's frame. *)
Theorem step_recording_frames :
  (forall cfg path now st action st' files tr,
     (forall s a, hwc_ok (obs_px (snd (sim_step s a)))) ->
     dc_episode_saving_path cfg = Some path ->
     dmc_step sim_step sim_render cfg now st action = Ok (st', files, tr) ->
     let a := flatten (tclip dmc_clip_low dmc_clip_high action) in
     buf_frames (d_episode_video st') = buf_frames (d_episode_video st) ++
       map (sim_render (dc_camera_id cfg))
           (sim_states sim_step (dc_action_repeat cfg) a (d_env st)) /\
     buf_frames (d_episode_video_pre st') = buf_frames (d_episode_video_pre st) ++
       map obs_px (sim_trajectory sim_step (dc_action_repeat cfg) a (d_env st)) /\
     length (sim_states sim_step (dc_action_repeat cfg) a (d_env st)) = dc_action_repeat cfg) /\
  (forall cfg path now st action st' files tr,
     ac_episode_saving_path cfg = Some path ->
     atari_step asim_step asim_game_over asim_image cfg now st action = Ok (st', files, tr) ->
     exists a o r d,
       item action = Ok a /\ asim_step (a_env st) a = (a_env st', (o, r, d)) /\
       buf_frames (a_episode_video st')
         = buf_frames (a_episode_video st) ++ [asim_image (a_env st')] /\
       buf_frames (a_episode_video_pre st') = buf_frames (a_episode_video_pre st) ++ [o]).
Proof.
  split.
  - intros cfg path now st action st' files tr Hok Hp H a.
    destruct (dmc_step_recording Sim sim_step sim_render _ _ _ _ _ _ _ _ Hok Hp H) as [Hv Hq].
    split; [exact Hv|]. split; [exact Hq|].
    clear. generalize (d_env st). induction (dc_action_repeat cfg) as [|n IH]; intro env;
      simpl; [reflexivity|].
    destruct (sim_step env a) as [env1 o]. simpl. f_equal. apply IH.
  - intros cfg path now st action st' files tr Hp H.
    exact (atari_step_recording ASim asim_step asim_game_over asim_image _ _ _ _ _ _ _ _ Hp H).
Qed.


Lemma dmc_steps_score cfg st rs st' :
  dmc_steps sim_step sim_render cfg st rs st' ->
  d_episode_score st' = fold_left Qplus rs (d_episode_score st).
Proof.
  induction 1 as [st|st now action st1 files tr rs st' H _ IH]; [reflexivity|].
  destruct (dmc_step_inv Sim sim_step sim_render _ _ _ _ _ _ _ H)
    as (_ & env' & vid & pre & rew & dn & obs & _ & _ & _ & _ & Hsc & Htr & _).
  rewrite IH, Hsc, Htr. reflexivity.
Qed.

Lemma atari_steps_score cfg st rs st' :
  atari_steps asim_step asim_game_over asim_image cfg st rs st' ->
  a_episode_score st' = fold_left Qplus rs (a_episode_score st).
Proof.
  induction 1 as [st|st now action st1 files tr rs st' H _ IH]; [reflexivity|].
  destruct (atari_step_inv ASim asim_step asim_game_over asim_image _ _ _ _ _ _ _ H)
    as (a & o & r & d & s & _ & _ & _ & _ & Hsc & Htr & _).
  rewrite IH, Hsc, Htr. reflexivity.
Qed.

(** The episode score after [reset()] and a sequence of steps is the
    running sum of the Transitions' rewards, and the videos saved by a step
    carry that score. *)
Theorem episode_score_sum :
  (forall cfg st0 st1 tr0 rs st now action st' files tr,
     dmc_reset sim_reset cfg st0 = (st1, tr0) ->
     dmc_steps sim_step sim_render cfg st1 rs st ->
     dmc_step sim_step sim_render cfg now st action = Ok (st', files, tr) ->
     d_episode_score st' = running_sum (rs ++ [reward tr]) /\
     Forall (fun f => vf_score f = running_sum (rs ++ [reward tr])) files) /\
  (forall cfg st0 st1 tr0 rs st now action st' files tr,
     atari_reset asim_reset asim_game_over cfg st0 = Ok (st1, tr0) ->
     atari_steps asim_step asim_game_over asim_image cfg st1 rs st ->
     atari_step asim_step asim_game_over asim_image cfg now st action = Ok (st', files, tr) ->
     a_episode_score st' = running_sum (rs ++ [reward tr]) /\
     Forall (fun f => vf_score f = running_sum (rs ++ [reward tr])) files).
Proof.
  split.
  - intros cfg st0 st1 tr0 rs st now action st' files tr Hr Hs H.
    assert (H1 : d_episode_score st1 = 0%Q).
    { unfold dmc_reset in Hr. destruct (sim_reset (d_env st0)).
      destruct (dc_episode_saving_path cfg); inversion Hr; reflexivity. }
    pose proof (dmc_steps_score _ _ _ _ Hs) as Hsc. rewrite H1 in Hsc.
    destruct (dmc_step_inv Sim sim_step sim_render _ _ _ _ _ _ _ H)
      as (_ & env' & vid & pre & rew & dn & obs & _ & _ & _ & _ & Hsc' & Htr & Hsave).
    assert (Hfin : d_episode_score st' = running_sum (rs ++ [reward tr])).
    { unfold running_sum. rewrite fold_left_app, <- Hsc, Hsc', Htr. reflexivity. }
    split; [exact Hfin|].
    destruct dn, (dc_episode_saving_path cfg) as [path|];
      [destruct Hsave as (_ & _ & _ & _ & Hf) | destruct Hsave as (_ & _ & Hf)
      | destruct Hsave as (_ & _ & Hf) | destruct Hsave as (_ & _ & Hf)];
      subst files; repeat constructor; simpl; exact Hfin.
  - intros cfg st0 st1 tr0 rs st now action st' files tr Hr Hs H.
    destruct (atari_reset_inv ASim asim_reset asim_game_over _ _ _ _ Hr)
      as (s & x & y & z & _ & _ & H1 & _).
    pose proof (atari_steps_score _ _ _ _ Hs) as Hsc. rewrite H1 in Hsc.
    destruct (atari_step_inv ASim asim_step asim_game_over asim_image _ _ _ _ _ _ _ H)
      as (a & o & r & d & s' & _ & _ & _ & _ & Hsc' & Htr & Hsave).
    assert (Hfin : a_episode_score st' = running_sum (rs ++ [reward tr])).
    { unfold running_sum. rewrite fold_left_app, <- Hsc, Hsc', Htr. reflexivity. }
    split; [exact Hfin|].
    destruct d, (ac_episode_saving_path cfg) as [path|];
      [destruct Hsave as (pv & _ & _ & _ & _ & _ & Hf)| | |]; subst files;
      repeat constructor; simpl; exact Hfin.
Qed.

(** For the Atari adapter [obs_space()] declares
    [C * history_frames] channels, which is the channel count of every state
    returned by a step from a reachable state when [history_frames >= 1];
    [reset()] returns [C * max(1, history_frames)] channels, so with
    [history_frames = 0] the declared 0 channels differ from the state. *)
Theorem atari_obs_space_channels :
  (forall cfg st now action st' files tr,
     (forall s, aobs_ok (snd (asim_reset s))) ->
     (forall s a, aobs_ok (fst (fst (snd (asim_step s a))))) ->
     1 <= ac_history_frames cfg ->
     atari_reachable asim_reset asim_step asim_game_over asim_image cfg st ->
     atari_step asim_step asim_game_over asim_image cfg now st action = Ok (st', files, tr) ->
     obs_space_channels (atari_obs_space cfg) = length (state tr)) /\
  (forall cfg st st' tr,
     (forall s, aobs_ok (snd (asim_reset s))) ->
     atari_reset asim_reset asim_game_over cfg st = Ok (st', tr) ->
     length (state tr) = max 1 (ac_history_frames cfg) * atari_channels cfg /\
     obs_space_channels (atari_obs_space cfg) = ac_history_frames cfg * atari_channels cfg).
Proof.
  assert (Hsp : forall cfg, obs_space_channels (atari_obs_space cfg)
                            = ac_history_frames cfg * atari_channels cfg).
  { intro cfg. unfold atari_obs_space, atari_channels.
    destruct (ac_grayscale_obs cfg); simpl; lia. }
  split.
  - intros cfg st now action st' files tr Hr Hs H1 Hreach H.
    assert (Hreach' : atari_reachable asim_reset asim_step asim_game_over asim_image cfg st')
      by exact (atari_reach_step _ _ _ _ _ _ _ _ _ _ _ _ Hreach H).
    pose proof (atari_reachable_history ASim asim_reset asim_step asim_game_over asim_image
                  _ _ Hr Hs H1 Hreach') as Hl.
    destruct (atari_step_inv ASim asim_step asim_game_over asim_image _ _ _ _ _ _ _ H)
      as (a & o & r & d & s & _ & _ & _ & _ & _ & Htr & _).
    rewrite Htr. simpl. rewrite Hl, Hsp. reflexivity.
  - intros cfg st st' tr Hr H.
    destruct (atari_reset_inv ASim asim_reset asim_game_over _ _ _ _ H)
      as (s & x & y & z & Hpp & Hh & _ & _ & Htr).
    pose proof (atari_preprocess_channels ASim asim_game_over _ _ _ _ _ _ _ _ _ (Hr _) Hpp)
      as Hc.
    split; [|apply Hsp].
    rewrite Htr. cbn [state]. rewrite Hh.
    destruct (Nat.ltb_spec 1 (ac_history_frames cfg)).
    + rewrite repeat_ch_length, Hc, Nat.max_r by lia. reflexivity.
    + rewrite Hc, Nat.max_l by lia. lia.
Qed.


Lemma mapM_Forall2 {A B : Type} (f : A -> res B) (l : list A) (l' : list B) :
  mapM f l = Ok l' -> Forall2 (fun x y => f x = Ok y) l l'.
Proof.
  revert l'; induction l as [|x l IH]; intros l' H; simpl in H.
  - inversion H. constructor.
  - destruct (f x) as [y|e] eqn:Hf; simpl in H; [|discriminate H].
    destruct (mapM f l) as [ys|e] eqn:Hm; simpl in H; [|discriminate H].
    inversion H; subst. constructor; [exact Hf|]. apply IH. reflexivity.
Qed.

Lemma mapM_ok {A B : Type} (f : A -> res B) (g : A -> B) (l : list A) :
  (forall x, In x l -> f x = Ok (g x)) -> mapM f l = Ok (map g l).
Proof.
  induction l as [|x l IH]; intro H; simpl; [reflexivity|].
  rewrite (H x (or_introl eq_refl)). simpl.
  rewrite IH by (intros y Hy; apply H; right; exact Hy). reflexivity.
Qed.

Lemma mapM_err {A B : Type} (f : A -> res B) (l : list A) (e : pyerror) :
  (forall x e', f x = Err e' -> e' = e) ->
  (exists x, In x l /\ f x = Err e) -> mapM f l = Err e.
Proof.
  intros Hall [x [Hin Hx]]. induction l as [|y l IH]; [contradiction|].
  simpl. destruct (f y) as [z|e'] eqn:Hy; simpl.
  - destruct Hin as [<-|Hin]; [congruence|].
    rewrite (IH Hin). reflexivity.
  - rewrite (Hall _ _ Hy). reflexivity.
Qed.

Lemma py_index_err {A : Type} (l : list A) (i : Z) (e : pyerror) :
  py_index l i = Err e -> e = IndexError.
Proof.
  unfold py_index. destruct (_ && _)%bool; [|congruence].
  destruct (nth_error _ _); congruence.
Qed.

Lemma py_index_out {A : Type} (l : list A) (i : Z) :
  (i < - Z.of_nat (length l) \/ Z.of_nat (length l) <= i)%Z -> py_index l i = Err IndexError.
Proof.
  intro H. unfold py_index.
  destruct (Z.ltb_spec i 0), (Z.leb_spec 0 (i + Z.of_nat (length l))),
    (Z.ltb_spec (i + Z.of_nat (length l)) (Z.of_nat (length l))),
    (Z.leb_spec 0 i), (Z.ltb_spec i (Z.of_nat (length l))); simpl; try reflexivity; lia.
Qed.

Lemma str_lookup_missing (k : string) (d : list (string * Z)) :
  ~ In k (map fst d) -> str_lookup k d = Err KeyError.
Proof.
  induction d as [|[k' v] d IH]; intro H; simpl; [reflexivity|].
  destruct (String.eqb_spec k k') as [->|_].
  - exfalso. apply H. left. reflexivity.
  - apply IH. intro Hin. apply H. right. exact Hin.
Qed.

(** [collate] of one param: a missing ["axis"] key raises KeyError (for
    non-empty samples), no samples make [torch.stack] raise RuntimeError,
    an axis out of range for some sample raises IndexError, and a result
    stacks [sample[axis]] of every sample, in order. *)
Theorem collate_one_errors samples params :
  (samples <> [] -> ~ In "axis"%string (map fst params) ->
     collate_one samples params = Err KeyError) /\
  (samples = [] -> collate_one samples params = Err RuntimeError) /\
  (forall axis, str_lookup "axis" params = Ok axis ->
     (exists s, In s samples /\
        (axis < - Z.of_nat (length s) \/ Z.of_nat (length s) <= axis)%Z) ->
     collate_one samples params = Err IndexError) /\
  (forall t, collate_one samples params = Ok t ->
     exists axis xs, str_lookup "axis" params = Ok axis /\ t = TArr xs /\
       Forall2 (fun s x => py_index s axis = Ok x) samples xs /\ xs <> []).
Proof.
  refine (conj _ (conj _ (conj _ _))).
  - intros Hne H. unfold collate_one. rewrite (str_lookup_missing _ _ H). simpl.
    destruct samples as [|s r]; [contradiction|]. reflexivity.
  - intros ->. reflexivity.
  - intros axis Ha [s [Hin Hs]]. unfold collate_one. rewrite Ha. simpl.
    rewrite (mapM_err _ _ IndexError); [reflexivity| |].
    + intros x e' He. exact (py_index_err _ _ _ He).
    + exists s. split; [exact Hin|]. apply py_index_out. exact Hs.
  - intros t H. unfold collate_one in H.
    destruct (mapM _ samples) as [xs|e] eqn:Hm; simpl in H; [|discriminate H].
    unfold stack in H. destruct xs as [|x r]; [discriminate H|].
    destruct (forallb _ _); [|discriminate H]. inversion H; subst t.
    pose proof (mapM_Forall2 _ _ _ Hm) as HF.
    destruct (str_lookup "axis" params) as [axis|e] eqn:Ha.
    + exists axis, (x :: r). split; [reflexivity|]. split; [reflexivity|].
      split; [exact HF|discriminate].
    + inversion HF as [|s0 x0 l0 r0 Hx _]; subst. discriminate Hx.
Qed.

Lemma py_index_last {A : Type} (l : list A) (d : A) :
  l <> [] -> py_index l (-1) = Ok (last l d).
Proof.
  intro Hne. destruct (exists_last Hne) as [l' [x ->]].
  rewrite last_last. unfold py_index. rewrite length_app. simpl length.
  replace (Z.of_nat (length l' + 1)) with (Z.of_nat (length l') + 1)%Z by lia.
  replace (-1 + (Z.of_nat (length l') + 1))%Z with (Z.of_nat (length l')) by lia.
  simpl.
  destruct (Z.leb_spec 0 (Z.of_nat (length l'))); [|lia].
  destruct (Z.ltb_spec (Z.of_nat (length l')) (Z.of_nat (length l') + 1)); [|lia].
  simpl. rewrite Nat2Z.id, nth_error_app2, Nat.sub_diag by lia. reflexivity.
Qed.

(** A negative axis indexes from the end: axis [-1] stacks the last
    element of every (non-empty) sample. *)
Theorem collate_negative_axis samples :
  Forall (fun s => s <> []) samples ->
  collate_one samples [("axis"%string, (-1)%Z)]
  = stack (map (fun s => last s (TScalar 0)) samples).
Proof.
  intro H. unfold collate_one. simpl.
  rewrite (mapM_ok _ (fun s => last s (TScalar 0))); [reflexivity|].
  intros s Hs. rewrite Forall_forall in H. apply py_index_last. exact (H s Hs).
Qed.


Lemma pykey_eqb_spec (a b : pykey) : pykey_eqb a b = true <-> a = b.
Proof.
  destruct a as [x|x], b as [y|y]; simpl; split; intro H; try discriminate H.
  - apply Z.eqb_eq in H. congruence.
  - injection H as ->. apply Z.eqb_refl.
  - apply String.eqb_eq in H. congruence.
  - injection H as ->. apply String.eqb_refl.
Qed.

Lemma dict_set_fresh (k : pykey) (v : pyval) (acc : list (pykey * pyval)) :
  ~ In k (map fst acc) -> dict_set k v acc = acc ++ [(k, v)].
Proof.
  induction acc as [|[k' v'] acc IH]; intro H; simpl; [reflexivity|].
  destruct (pykey_eqb k k') eqn:E.
  - exfalso. apply pykey_eqb_spec in E. subst. apply H. left. reflexivity.
  - f_equal. apply IH. intro Hin. apply H. right. exact Hin.
Qed.

(** [collate] on a list or tuple with other than one entry returns the
    list or tuple of the stacked arrays, in order, and fails with the first
    failing entry's error; on a dict with distinct names and other than one
    entry it returns the dict of names to stacked arrays, in the params'
    order. *)
Theorem collate_structures samples :
  (forall l ts, length l <> 1 ->
     mapM (collate_one samples) l = Ok ts ->
     collate samples (CList l) = Ok (PList (map PTensor ts)) /\
     collate samples (CTuple l) = Ok (PTuple (map PTensor ts))) /\
  (forall l e, mapM (collate_one samples) l = Err e ->
     collate samples (CList l) = Err e /\ collate samples (CTuple l) = Err e) /\
  (forall d ts, length d <> 1 -> NoDup (map fst d) ->
     mapM (collate_one samples) (map snd d) = Ok ts ->
     collate samples (CDict d) = Ok (PDict (combine (map fst d) (map PTensor ts)))).
Proof.
  refine (conj _ (conj _ _)).
  - intros l ts Hl Hm.
    assert (Hlen : length ts = length l)
      by (symmetry; exact (Forall2_length (mapM_Forall2 _ _ _ Hm))).
    unfold collate. rewrite Hm. simpl.
    rewrite length_map, Hlen. apply Nat.eqb_neq in Hl. rewrite Hl. auto.
  - intros l e Hm. unfold collate. rewrite Hm. auto.
  - intros d ts Hl Hnd Hm. unfold collate.
    assert (Hgo : forall d acc ts,
      NoDup (map fst d) ->
      (forall k, In k (map fst d) -> ~ In k (map fst acc)) ->
      mapM (collate_one samples) (map snd d) = Ok ts ->
      (fix go (d : list (pykey * cparam)) (acc : list (pykey * pyval)) :=
         match d with
         | [] => Ok (PDict acc)
         | (name, params) :: r =>
             t <- collate_one samples params ;;
             go r (dict_set name (PTensor t) acc)
         end) d acc
      = Ok (PDict (acc ++ combine (map fst d) (map PTensor ts)))).
    { clear d ts Hl Hnd Hm.
      induction d as [|[k p] d IH]; intros acc ts Hnd Hfr Hm; simpl in Hm |- *.
      - inversion Hm; subst. simpl. now rewrite app_nil_r.
      - destruct (collate_one samples p) as [t|e]; simpl in Hm |- *; [|discriminate Hm].
        destruct (mapM (collate_one samples) (map snd d)) as [ts'|e] eqn:Hm';
          simpl in Hm; [|discriminate Hm].
        inversion Hm; subst; clear Hm. inversion Hnd; subst.
        rewrite dict_set_fresh by (apply Hfr; left; reflexivity).
        rewrite (IH _ ts' H2); [simpl; now rewrite <- app_assoc| |reflexivity].
        intros k' Hk' Hin. rewrite map_app, in_app_iff in Hin. destruct Hin as [Hin|Hin].
        + exact (Hfr k' (or_intror Hk') Hin).
        + simpl in Hin. destruct Hin as [<-|[]]. contradiction. }
    rewrite (Hgo d [] ts Hnd (fun _ _ H => H) Hm). simpl.
    rewrite length_combine, !length_map.
    rewrite <- (Forall2_length (mapM_Forall2 _ _ _ Hm)), length_map, Nat.min_id.
    apply Nat.eqb_neq in Hl. now rewrite Hl.
Qed.

(** [CollateFn()] with its default params, on (input, target) samples of
    uniform shapes, returns the stacked inputs and the stacked targets. *)
Theorem default_collate_forward (pairs : list (tensor * tensor)) (sx sy : list nat) :
  pairs <> [] ->
  Forall (fun p => shape (fst p) = sx /\ shape (snd p) = sy) pairs ->
  collate_forward default_inputs_params default_targets_params
    (map (fun p => [fst p; snd p]) pairs)
  = Ok (PTensor (TArr (map fst pairs)), PTensor (TArr (map snd pairs))).
Proof.
  intros Hne Hs. rewrite Forall_forall in Hs.
  assert (Hstack : forall (g : tensor * tensor -> tensor) sg,
            (forall p, In p pairs -> shape (g p) = sg) ->
            stack (map g pairs) = Ok (TArr (map g pairs))).
  { intros g sg Hg. destruct pairs as [|p0 r]; [contradiction|].
    unfold stack. simpl map. cbv beta iota.
    match goal with |- context [forallb ?f ?l] => replace (forallb f l) with true end;
      [reflexivity|]. symmetry.
    apply forallb_forall. intros y Hy.
    change (In y (map g (p0 :: r))) in Hy. apply in_map_iff in Hy. destruct Hy as [p [<- Hp]].
    rewrite (Hg p Hp), (Hg p0 (or_introl eq_refl)).
    destruct (list_eq_dec Nat.eq_dec sg sg); [reflexivity|contradiction]. }
  unfold collate_forward, collate, default_inputs_params, default_targets_params.
  simpl mapM. unfold collate_one at 1. simpl str_lookup. cbn [bind].
  rewrite (mapM_ok _ (fun s => nth 0 s (TScalar 0)))
    by (intros s Hin; apply in_map_iff in Hin; destruct Hin as [p [<- _]]; reflexivity).
  rewrite map_map. simpl.
  rewrite (Hstack (fun x => fst x) sx) by (intros p Hp; apply Hs; exact Hp). simpl.
  unfold collate_one. simpl str_lookup. cbn [bind].
  rewrite (mapM_ok _ (fun s => nth 1 s (TScalar 0)))
    by (intros s Hin; apply in_map_iff in Hin; destruct Hin as [p [<- _]]; reflexivity).
  rewrite map_map. simpl.
  rewrite (Hstack (fun x => snd x) sy) by (intros p Hp; apply Hs; exact Hp). reflexivity.
Qed.


Lemma dmc_task_init_ok tasks cam n task img h p r cfg :
  dmc_task_init tasks cam n task img h p r = Ok cfg ->
  In task tasks /\ dc_history_frames cfg = h /\ dc_num_actions cfg = n.
Proof.
  unfold dmc_task_init. destruct (existsb (String.eqb task) tasks) eqn:E; intro H;
    [|discriminate H].
  inversion H; subst. apply existsb_exists in E. destruct E as [t [Hin Ht]].
  apply String.eqb_eq in Ht. subst. auto.
Qed.

Lemma dmc_task_init_err tasks cam n task img h p r :
  dmc_task_init tasks cam n task img h p r = Err AssertionError <-> ~ In task tasks.
Proof.
  unfold dmc_task_init. destruct (existsb (String.eqb task) tasks) eqn:E.
  - split; intro H; [discriminate H|]. exfalso. apply H.
    apply existsb_exists in E. destruct E as [t [Hin Ht]].
    apply String.eqb_eq in Ht. subst. exact Hin.
  - split; intros _; [|reflexivity]. intro Hin.
    assert (Hx : existsb (String.eqb task) tasks = true)
      by (apply existsb_exists; exists task; split; [exact Hin|apply String.eqb_refl]).
    congruence.
Qed.

(** The task adapters assert their task: Pendulum and Acrobot accept only
    "swingup", Quadruped only "walk" and "run" (AssertionError otherwise).
    Built with their default [history_frames = 1], their states have the
    3 channels [obs_space()] declares. *)
Theorem task_adapters :
  (forall task img h p r,
     pendulum_cfg task img h p r = Err AssertionError <-> task <> "swingup"%string) /\
  (forall task img h p r,
     acrobot_cfg task img h p r = Err AssertionError <-> task <> "swingup"%string) /\
  (forall img h p task r,
     quadruped_cfg img h p task r = Err AssertionError <->
     task <> "walk"%string /\ task <> "run"%string) /\
  (forall cfg st,
     (forall s, last_dim (snd (sim_reset s)) = 3) ->
     (forall s a, last_dim (obs_px (snd (sim_step s a))) = 3) ->
     (exists task img p r,
        pendulum_cfg task img 1 p r = Ok cfg \/ acrobot_cfg task img 1 p r = Ok cfg \/
        quadruped_cfg img 1 p task r = Ok cfg) ->
     dmc_reachable sim_reset sim_step sim_render cfg st ->
     obs_space_channels (dmc_obs_space cfg) = length (d_history st)).
Proof.
  refine (conj _ (conj _ (conj _ _))).
  - intros task img h p r. unfold pendulum_cfg. rewrite dmc_task_init_err. simpl.
    split; intro H; [intro E; apply H; left; congruence|intros [E|[]]; congruence].
  - intros task img h p r. unfold acrobot_cfg. rewrite dmc_task_init_err. simpl.
    split; intro H; [intro E; apply H; left; congruence|intros [E|[]]; congruence].
  - intros img h p task r. unfold quadruped_cfg. rewrite dmc_task_init_err. simpl.
    split; intro H.
    + split; intro E; apply H; [left|right; left]; congruence.
    + destruct H as [H1 H2]. intros [E|[E|[]]]; congruence.
  - intros cfg st Hr Hs [task [img [p [r Hc]]]] Hreach.
    assert (H1 : dc_history_frames cfg = 1).
    { unfold pendulum_cfg, acrobot_cfg, quadruped_cfg in Hc.
      destruct Hc as [Hc|[Hc|Hc]]; exact (proj1 (proj2 (dmc_task_init_ok _ _ _ _ _ _ _ _ _ Hc))). }
    destruct (dmc_reachable_history Sim sim_reset sim_step sim_render cfg st Hr Hs
                ltac:(lia) Hreach) as [Hl _].
    rewrite Hl, H1. reflexivity.
Qed.

End Extras.

(** ** Witnesses of the further properties *)

Lemma dmc_sample_step_witness :
  shape (dmc_sample (Toy.dcfg None) [1 # 2]) = [1] /\
  dmc_step Toy.dsim_step Toy.dsim_render (Toy.dcfg None) "t"%string (Toy.dstart None)
    (dmc_sample (Toy.dcfg None) [1 # 2])
  = dmc_step_list Toy.dsim_step Toy.dsim_render (Toy.dcfg None) "t"%string (Toy.dstart None)
      [1 # 2].
Proof.
  exact (dmc_sample_step nat Toy.dsim_step Toy.dsim_render (Toy.dcfg None) [1 # 2] "t"%string
           (Toy.dstart None) ltac:(simpl; lia)
           ltac:(repeat constructor; unfold dmc_clip_low, dmc_clip_high, Qle; simpl; lia)).
Defined.

Lemma dmc_step_zero_repeat_witness :
  dmc_step Toy.dsim_step Toy.dsim_render
    {| dc_img_size := (1, 1); dc_history_frames := 2; dc_episode_saving_path := None;
       dc_camera_id := 0; dc_action_repeat := 0; dc_num_actions := 1 |}
    "t"%string (Toy.dstart None) (TArr [TScalar 0]) = Err NameError.
Proof.
  exact (dmc_step_zero_repeat nat Toy.dsim_step Toy.dsim_render
           {| dc_img_size := (1, 1); dc_history_frames := 2; dc_episode_saving_path := None;
              dc_camera_id := 0; dc_action_repeat := 0; dc_num_actions := 1 |}
           "t"%string (Toy.dstart None) (TArr [TScalar 0]) eq_refl eq_refl).
Defined.

Lemma step_after_save_fails_witness :
  (exists st' files tr,
     dmc_step Toy.dsim_step Toy.dsim_render (Toy.dcfg (Some "videos"%string)) "t"%string
       (Toy.dstart (Some "videos"%string)) (TArr [TScalar 0]) = Ok (st', files, tr) /\
     dmc_step Toy.dsim_step Toy.dsim_render (Toy.dcfg (Some "videos"%string)) "u"%string
       st' (TArr [TScalar 0]) = Err AttributeError) /\
  (exists st' files tr,
     Toy.astep true (Some "videos"%string) "t"%string (Toy.astart true (Some "videos"%string))
       (TScalar 1) = Ok (st', files, tr) /\
     Toy.astep true (Some "videos"%string) "u"%string st' (TScalar 1) = Err AttributeError).
Proof.
  destruct (step_after_save_fails nat Toy.dsim_step Toy.dsim_render
              nat Toy.asim_step Toy.asim_game_over Toy.asim_image) as [Hd Ha].
  split.
  - run_ok (dmc_step Toy.dsim_step Toy.dsim_render (Toy.dcfg (Some "videos"%string)) "t"%string
              (Toy.dstart (Some "videos"%string)) (TArr [TScalar 0])) st' files tr Hrun.
    exists st', files, tr. split; [reflexivity|].
    assert (Hf : files <> []).
    { vm_compute in Hrun. injection Hrun as _ <- _. discriminate. }
    exact (Hd (Toy.dcfg (Some "videos"%string)) "videos"%string "t"%string
             (Toy.dstart (Some "videos"%string)) (TArr [TScalar 0]) st' files tr "u"%string
             (TArr [TScalar 0]) eq_refl Hrun Hf ltac:(simpl; lia) eq_refl).
  - run_ok (Toy.astep true (Some "videos"%string) "t"%string
              (Toy.astart true (Some "videos"%string)) (TScalar 1)) st' files tr Hrun.
    exists st', files, tr. split; [reflexivity|].
    assert (Hf : files <> []).
    { vm_compute in Hrun. injection Hrun as _ <- _. discriminate. }
    exact (Ha (Toy.acfg true (Some "videos"%string)) "videos"%string "t"%string
             (Toy.astart true (Some "videos"%string)) (TScalar 1) st' files tr "u"%string
             (TScalar 1) 1%Q eq_refl Hrun Hf eq_refl).
Defined.

Lemma step_without_recording_witness :
  (exists st' files tr,
     dmc_step Toy.dsim_step Toy.dsim_render (Toy.dcfg None) "t"%string (Toy.dstart None)
       (TArr [TScalar 0]) = Ok (st', files, tr) /\
     files = [] /\ d_episode_video st' = d_episode_video (Toy.dstart None) /\
     d_episode_video_pre st' = d_episode_video_pre (Toy.dstart None)) /\
  (exists st' files tr,
     Toy.astep true None "t"%string (Toy.astart true None) (TScalar 1) = Ok (st', files, tr) /\
     files = [] /\ a_episode_video st' = a_episode_video (Toy.astart true None) /\
     a_episode_video_pre st' = a_episode_video_pre (Toy.astart true None)).
Proof.
  destruct (step_without_recording nat Toy.dsim_step Toy.dsim_render
              nat Toy.asim_step Toy.asim_game_over Toy.asim_image) as [Hd Ha].
  split.
  - run_ok (dmc_step Toy.dsim_step Toy.dsim_render (Toy.dcfg None) "t"%string (Toy.dstart None)
              (TArr [TScalar 0])) st' files tr Hrun.
    exists st', files, tr. split; [reflexivity|].
    exact (Hd (Toy.dcfg None) "t"%string (Toy.dstart None) (TArr [TScalar 0]) st' files tr
             eq_refl Hrun).
  - run_ok (Toy.astep true None "t"%string (Toy.astart true None) (TScalar 1)) st' files tr Hrun.
    exists st', files, tr. split; [reflexivity|].
    exact (Ha (Toy.acfg true None) "t"%string (Toy.astart true None) (TScalar 1) st' files tr
             eq_refl Hrun).
Defined.

Lemma step_recording_frames_witness :
  (exists st' files tr,
     dmc_step Toy.dsim_step Toy.dsim_render (Toy.dcfg (Some "videos"%string)) "t"%string
       (Toy.dstart (Some "videos"%string)) (TArr [TScalar 0]) = Ok (st', files, tr) /\
     buf_frames (d_episode_video st')
     = buf_frames (d_episode_video (Toy.dstart (Some "videos"%string)))
       ++ [[[[1]]]; [[[2]]]]%Z) /\
  (exists st' files tr,
     Toy.astep true (Some "videos"%string) "t"%string (Toy.astart true (Some "videos"%string))
       (TScalar 1) = Ok (st', files, tr) /\
     buf_frames (a_episode_video st')
     = buf_frames (a_episode_video (Toy.astart true (Some "videos"%string)))
       ++ [Toy.asim_image (a_env st')]).
Proof.
  destruct (step_recording_frames nat Toy.dsim_step Toy.dsim_render
              nat Toy.asim_step Toy.asim_game_over Toy.asim_image) as [Hd Ha].
  split.
  - run_ok (dmc_step Toy.dsim_step Toy.dsim_render (Toy.dcfg (Some "videos"%string)) "t"%string
              (Toy.dstart (Some "videos"%string)) (TArr [TScalar 0])) st' files tr Hrun.
    exists st', files, tr. split; [reflexivity|].
    assert (Hhwc : forall s a, hwc_ok (obs_px (snd (Toy.dsim_step s a)))).
    { intros s a. split; [simpl; lia | repeat constructor]. }
    destruct (Hd (Toy.dcfg (Some "videos"%string)) "videos"%string "t"%string
                (Toy.dstart (Some "videos"%string)) (TArr [TScalar 0]) st' files tr
                Hhwc eq_refl Hrun) as [Hv _].
    exact Hv.
  - run_ok (Toy.astep true (Some "videos"%string) "t"%string
              (Toy.astart true (Some "videos"%string)) (TScalar 1)) st' files tr Hrun.
    exists st', files, tr. split; [reflexivity|].
    destruct (Ha (Toy.acfg true (Some "videos"%string)) "videos"%string "t"%string
                (Toy.astart true (Some "videos"%string)) (TScalar 1) st' files tr eq_refl Hrun)
      as (a & o & r & d & _ & _ & Hv & _).
    exact Hv.
Defined.

Lemma episode_score_sum_witness :
  (exists st' files tr,
     dmc_step Toy.dsim_step Toy.dsim_render (Toy.dcfg (Some "videos"%string)) "t"%string
       (Toy.dstart (Some "videos"%string)) (TArr [TScalar 0]) = Ok (st', files, tr) /\
     d_episode_score st' = running_sum [reward tr] /\
     Forall (fun f => vf_score f = running_sum [reward tr]) files) /\
  (exists st' files tr,
     Toy.astep true (Some "videos"%string) "t"%string (Toy.astart true (Some "videos"%string))
       (TScalar 1) = Ok (st', files, tr) /\
     a_episode_score st' = running_sum [reward tr] /\
     Forall (fun f => vf_score f = running_sum [reward tr]) files).
Proof.
  destruct (episode_score_sum nat Toy.dsim_reset Toy.dsim_step Toy.dsim_render
              nat Toy.asim_reset Toy.asim_step Toy.asim_game_over Toy.asim_image) as [Hd Ha].
  split.
  - destruct (dmc_reset Toy.dsim_reset (Toy.dcfg (Some "videos"%string)) Toy.dinit)
      as [s1 tr0] eqn:Hr0.
    assert (Hs1 : s1 = Toy.dstart (Some "videos"%string)).
    { unfold Toy.dstart. rewrite Hr0. reflexivity. }
    run_ok (dmc_step Toy.dsim_step Toy.dsim_render (Toy.dcfg (Some "videos"%string)) "t"%string
              (Toy.dstart (Some "videos"%string)) (TArr [TScalar 0])) st' files tr Hrun.
    exists st', files, tr. split; [reflexivity|].
    rewrite <- Hs1 in Hrun.
    exact (Hd (Toy.dcfg (Some "videos"%string)) Toy.dinit s1 tr0 [] s1 "t"%string
             (TArr [TScalar 0]) st' files tr Hr0 (dmc_steps_nil _ _ _ s1) Hrun).
  - destruct (Toy.areset true (Some "videos"%string) Toy.ainit) as [[s1 tr0]|e] eqn:Hr0;
      [|vm_compute in Hr0; discriminate Hr0].
    assert (Hs1 : s1 = Toy.astart true (Some "videos"%string)).
    { unfold Toy.astart. rewrite Hr0. reflexivity. }
    run_ok (Toy.astep true (Some "videos"%string) "t"%string
              (Toy.astart true (Some "videos"%string)) (TScalar 1)) st' files tr Hrun.
    exists st', files, tr. split; [reflexivity|].
    rewrite <- Hs1 in Hrun.
    exact (Ha (Toy.acfg true (Some "videos"%string)) Toy.ainit s1 tr0 [] s1 "t"%string
             (TScalar 1) st' files tr Hr0 (atari_steps_nil _ _ _ _ s1) Hrun).
Defined.

Lemma atari_obs_space_channels_witness :
  (exists st' files tr,
     Toy.astep false None "t"%string (Toy.astart false None) (TScalar 1) = Ok (st', files, tr) /\
     obs_space_channels (atari_obs_space (Toy.acfg false None)) = length (state tr)) /\
  (exists st' tr,
     Toy.areset false None Toy.ainit = Ok (st', tr) /\
     length (state tr) = 2 /\
     obs_space_channels (atari_obs_space (Toy.acfg false None)) = 2).
Proof.
  destruct (atari_obs_space_channels nat Toy.asim_reset Toy.asim_step Toy.asim_game_over
              Toy.asim_image) as [Hs Hr].
  split.
  - assert (Hreach : atari_reachable Toy.asim_reset Toy.asim_step Toy.asim_game_over
                       Toy.asim_image (Toy.acfg false None) (Toy.astart false None)).
    { unfold Toy.astart.
      destruct (Toy.areset false None Toy.ainit) as [[s0 tr0]|e] eqn:Hr0;
        [|vm_compute in Hr0; discriminate Hr0].
      eapply atari_reach_reset. exact Hr0. }
    run_ok (Toy.astep false None "t"%string (Toy.astart false None) (TScalar 1)) st' files tr Hrun.
    exists st', files, tr. split; [reflexivity|].
    exact (Hs (Toy.acfg false None) (Toy.astart false None) "t"%string (TScalar 1) st' files tr
             (fun s => I) (fun s a => I) ltac:(simpl; lia) Hreach Hrun).
  - destruct (Toy.areset false None Toy.ainit) as [[st' tr]|e] eqn:Hr0;
      [|vm_compute in Hr0; discriminate Hr0].
    exists st', tr. split; [reflexivity|].
    exact (Hr (Toy.acfg false None) Toy.ainit st' tr (fun s => I) Hr0).
Defined.

Lemma collate_one_errors_witness :
  collate_one [[TScalar 1]] [("dim"%string, 0%Z)] = Err KeyError /\
  collate_one [] [] = Err RuntimeError /\
  collate_one [[TScalar 1]; [TScalar 2; TScalar 3]] [("axis"%string, 1%Z)] = Err IndexError /\
  (exists axis xs, str_lookup "axis" [("axis"%string, 1%Z)] = Ok axis /\
     TArr [TScalar 2; TScalar 4] = TArr xs /\
     Forall2 (fun s x => py_index s axis = Ok x) [[TScalar 1; TScalar 2]; [TScalar 3; TScalar 4]] xs /\
     xs <> []).
Proof.
  refine (conj _ (conj _ (conj _ _))).
  - destruct (collate_one_errors [[TScalar 1]] [("dim"%string, 0%Z)]) as [H _].
    apply H; [discriminate|]. simpl. intros [Hd|[]]. discriminate Hd.
  - destruct (collate_one_errors [] []) as (_ & H & _).
    exact (H eq_refl).
  - destruct (collate_one_errors [[TScalar 1]; [TScalar 2; TScalar 3]] [("axis"%string, 1%Z)])
      as (_ & _ & H & _).
    apply (H 1%Z eq_refl).
    exists [TScalar 1]. split; [left; reflexivity | simpl; lia].
  - destruct (collate_one_errors [[TScalar 1; TScalar 2]; [TScalar 3; TScalar 4]]
                [("axis"%string, 1%Z)]) as (_ & _ & _ & H).
    exact (H (TArr [TScalar 2; TScalar 4]) eq_refl).
Defined.

Lemma collate_negative_axis_witness :
  collate_one [[TScalar 1; TScalar 2]; [TScalar 3]] [("axis"%string, (-1)%Z)]
  = stack [TScalar 2; TScalar 3].
Proof.
  exact (collate_negative_axis [[TScalar 1; TScalar 2]; [TScalar 3]]
           ltac:(repeat constructor; discriminate)).
Defined.

Lemma collate_structures_witness :
  collate [[TScalar 1; TScalar 2]] (CList [[("axis"%string, 0%Z)]; [("axis"%string, 1%Z)]])
    = Ok (PList [PTensor (TArr [TScalar 1]); PTensor (TArr [TScalar 2])]) /\
  collate [[TScalar 1; TScalar 2]] (CTuple [[("axis"%string, 0%Z)]; [("dim"%string, 1%Z)]])
    = Err KeyError /\
  collate [[TScalar 1; TScalar 2]]
    (CDict [(KStr "a"%string, [("axis"%string, 0%Z)]); (KStr "b"%string, [("axis"%string, 1%Z)])])
  = Ok (PDict [(KStr "a"%string, PTensor (TArr [TScalar 1]));
               (KStr "b"%string, PTensor (TArr [TScalar 2]))]).
Proof.
  destruct (collate_structures [[TScalar 1; TScalar 2]]) as (H1 & H2 & H3).
  refine (conj _ (conj _ _)).
  - exact (proj1 (H1 [[("axis"%string, 0%Z)]; [("axis"%string, 1%Z)]]
                    [TArr [TScalar 1]; TArr [TScalar 2]] ltac:(simpl; lia) eq_refl)).
  - exact (proj2 (H2 [[("axis"%string, 0%Z)]; [("dim"%string, 1%Z)]] KeyError eq_refl)).
  - exact (H3 [(KStr "a"%string, [("axis"%string, 0%Z)]); (KStr "b"%string, [("axis"%string, 1%Z)])]
             [TArr [TScalar 1]; TArr [TScalar 2]] ltac:(simpl; lia)
             ltac:(constructor; [simpl; intros [H|[]]; discriminate H|
                    constructor; [intros []|constructor]]) eq_refl).
Defined.

Lemma default_collate_forward_witness :
  collate_forward default_inputs_params default_targets_params
    [[TScalar 1; TScalar 2]; [TScalar 3; TScalar 4]]
  = Ok (PTensor (TArr [TScalar 1; TScalar 3]), PTensor (TArr [TScalar 2; TScalar 4])).
Proof.
  exact (default_collate_forward [(TScalar 1, TScalar 2); (TScalar 3, TScalar 4)] [] []
           ltac:(discriminate) ltac:(repeat constructor)).
Defined.

Lemma task_adapters_witness :
  acrobot_cfg "swingup_sparse"%string (1, 1) 1 None 1 = Err AssertionError /\
  quadruped_cfg (1, 1) 1 None "run"%string 1 <> Err AssertionError /\
  obs_space_channels (dmc_obs_space
    {| dc_img_size := (1, 1); dc_history_frames := 1; dc_episode_saving_path := None;
       dc_camera_id := 0; dc_action_repeat := 1; dc_num_actions := 1 |})
  = length (d_history (fst (dmc_reset Toy.dsim_reset
    {| dc_img_size := (1, 1); dc_history_frames := 1; dc_episode_saving_path := None;
       dc_camera_id := 0; dc_action_repeat := 1; dc_num_actions := 1 |} Toy.dinit))).
Proof.
  destruct (task_adapters nat Toy.dsim_reset Toy.dsim_step Toy.dsim_render)
    as (_ & Ha & Hq & H).
  refine (conj _ (conj _ _)).
  - apply (proj2 (Ha "swingup_sparse"%string (1, 1) 1 None 1)). discriminate.
  - intro He. apply (proj1 (Hq (1, 1) 1 None "run"%string 1) He). reflexivity.
  - destruct (dmc_reset Toy.dsim_reset
      {| dc_img_size := (1, 1); dc_history_frames := 1; dc_episode_saving_path := None;
         dc_camera_id := 0; dc_action_repeat := 1; dc_num_actions := 1 |} Toy.dinit)
      as [st tr] eqn:Hr.
    apply (H _ st (fun s => eq_refl) (fun s a => eq_refl)).
    + exists "swingup"%string, (1, 1), None, 1. left. reflexivity.
    + eapply dmc_reach_reset. exact Hr.
Defined.
